(** * The thread-safe facade of the nuclei SDK (lib/multi.go)

    A shallow embedding of [createEphemeralObjects],
    [NewThreadSafeNucleiEngine] and [ExecuteNucleiWithOpts].

    Go pointers are addresses into typed stores ([gmap]s), so that the
    difference between copying an options object and sharing it is visible.
    Calls into the packages the facade drives (parsers, loader, core) are
    recorded in a trace; what those packages compute is left open: they are
    the fields of the class [Packages]. *)

From Stdlib Require Import ZArith Lia.
From stdpp Require Import gmap strings list.

Local Open Scope string_scope.
Local Open Scope list_scope.

(** ** Values *)

Definition loc := positive.

(** A Go pointer or interface value: [None] is nil. *)
Definition ptr := option loc.

(** Go's [error] values met by the facade.  The three sentinels are declared
    next to the SDK's engine; [errorutil_New] is [errorutil.New(format, err)]. *)
Inductive error : Type :=
| ErrNoTemplatesAvailable
| ErrNoTargetsAvailable
| ErrOptionsNotSupported
| errorutil_New (format : string) (cause : error)
| errors_New (msg : string).

Inductive engineMode : Type := singleInstance | threadSafe.

(** [time.Duration] counts nanoseconds. *)
Definition time_Second : Z := 1000000000.
Definition time_Minute : Z := 60 * time_Second.

(** Go's [int] and [uint] on a 64-bit platform. *)
Definition is_int (x : Z) : Prop := (- 2 ^ 63 <= x < 2 ^ 63)%Z.
Definition uint (x : Z) : Z := (x mod 2 ^ 64)%Z.

(** A [ratelimit.Limiter], as built by [ratelimit.New(ctx, max, duration)] or
    by [ratelimit.NewUnlimited(ctx)]. *)
Inductive Limiter : Type :=
| Limited (maxCount : Z) (duration : Z)
| Unlimited.

Inductive aurora : Type := aurora_NewAurora (colors : bool).
Inductive types_ResumeCfg : Type := types_NewResumeCfg.

(** [contextargs.MetaInput] and [inputs.SimpleInputProvider]; the struct
    literal of the facade shows the [Inputs] slice. *)
Record MetaInput : Type := { Input : string }.
Record SimpleInputProvider : Type := { Inputs : list MetaInput }.

(** Modelled from the spec: the methods [Set] and [Count] of
    [inputs.SimpleInputProvider] are not among the sources at hand.  The
    provider "accumulates target strings", "exposes a count" and "does not
    deduplicate" ("duplicates are preserved"): [Set] appends to the [Inputs]
    slice and [Count] is its length. *)
Definition SimpleInputProvider_Set (s : SimpleInputProvider) (value : string)
  : SimpleInputProvider :=
  {| Inputs := Inputs s ++ [ {| Input := value |} ] |}.

Definition SimpleInputProvider_Count (s : SimpleInputProvider) : Z :=
  Z.of_nat (length (Inputs s)).

(** The provider that holds exactly the given targets, in order. *)
Definition provider_of (targets : list string) : SimpleInputProvider :=
  {| Inputs := map (fun t => {| Input := t |}) targets |}.

(** The fields of [NucleiEngine] other than [opts]: the handles the facade
    copies into the executor options, and the mode tag. *)
Record engineFields : Type := {
  mode : engineMode;
  customWriter : ptr;
  customProgress : ptr;
  catalog : ptr;
  rc : ptr;
  rateLimiter : ptr;
  interactshClient : ptr;
  hostErrCache : ptr
}.

(** [NucleiEngine]: the pointer to its options, and the rest. *)
Record NucleiEngine : Type := { opts : ptr; fields : engineFields }.

(** [&NucleiEngine{opts: p, mode: m}]: every other field is nil. *)
Definition zero_fields (m : engineMode) : engineFields :=
  {| mode := m; customWriter := None; customProgress := None; catalog := None;
     rc := None; rateLimiter := None; interactshClient := None;
     hostErrCache := None |}.

Record ThreadSafeNucleiEngine : Type := { eng : ptr }.

Section Facade.

(** ** What the facade does not define *)

(** The fields of [types.Options] the facade does not read;
    [*templates.Template], [parsers.WorkflowLoader], [*loader.Store] and the
    value returned by the executor's scan. *)
Context {OptionsRest Template WorkflowLoader Store ScanResult : Type}.

Record types_Options : Type := {
  RateLimit : Z;
  RateLimitMinute : Z;
  rest : OptionsRest
}.

Record ExecutorOptions : Type := {
  Output : ptr;
  Options : ptr;
  Progress : ptr;
  Catalog : ptr;
  IssuesClient : ptr;
  RateLimiter : ptr;
  Interactsh : ptr;
  HostErrorsCache : ptr;
  Colorizer : aurora;
  ResumeCfg : types_ResumeCfg;
  WorkflowLoader_ : option WorkflowLoader
}.

Definition set_RateLimiter (l : ptr) (x : ExecutorOptions) : ExecutorOptions :=
  {| Output := Output x; Options := Options x; Progress := Progress x;
     Catalog := Catalog x; IssuesClient := IssuesClient x; RateLimiter := l;
     Interactsh := Interactsh x; HostErrorsCache := HostErrorsCache x;
     Colorizer := Colorizer x; ResumeCfg := ResumeCfg x;
     WorkflowLoader_ := WorkflowLoader_ x |}.

Definition set_WorkflowLoader (l : WorkflowLoader) (x : ExecutorOptions)
  : ExecutorOptions :=
  {| Output := Output x; Options := Options x; Progress := Progress x;
     Catalog := Catalog x; IssuesClient := IssuesClient x;
     RateLimiter := RateLimiter x; Interactsh := Interactsh x;
     HostErrorsCache := HostErrorsCache x; Colorizer := Colorizer x;
     ResumeCfg := ResumeCfg x; WorkflowLoader_ := Some l |}.

(** [core.Engine]: the options it was built from and its executor options;
    its work pool is identified with the engine's address. *)
Record core_Engine : Type := {
  core_options : ptr;
  core_executerOpts : option ExecutorOptions
}.

Record unsafeOptions : Type := {
  executerOpts : ExecutorOptions;
  engine : ptr
}.

(** [loader.NewConfig(options, catalog, executerOpts)]. *)
Record loader_Config : Type := {
  cfg_options : ptr;
  cfg_catalog : ptr;
  cfg_executerOpts : ExecutorOptions
}.

(** ** The world: typed stores and the trace of calls *)

Inductive Event : Type :=
| EvOption (i : nat)
| EvInit (e : ptr)
| EvNewLoader
| EvLoaderNew
| EvStoreLoad
| EvSet (target : string)
| EvExecuteScan (engine : ptr) (templates : list Template)
    (target : SimpleInputProvider) (noCluster : bool)
| EvWait (engine : ptr).

Record World : Type := {
  engines : gmap loc NucleiEngine;
  options : gmap loc types_Options;
  limiters : gmap loc Limiter;
  cores : gmap loc core_Engine;
  trace : list Event
}.

Inductive outcome (A : Type) : Type :=
| Ok (a : A) (w : World)
| Panic (msg : string).
Arguments Ok {A} a w.
Arguments Panic {A} msg.

(** What a call returned, if it did not panic. *)
Definition returned {A} (r : outcome A) : option A :=
  match r with
  | Ok a _ => Some a
  | Panic _ => None
  end.

(** A state monad over the world; a nil dereference panics. *)
Definition M (A : Type) : Type := World -> outcome A.

Definition ret {A} (a : A) : M A := fun w => Ok a w.

Definition bind {A B} (m : M A) (k : A -> M B) : M B :=
  fun w => match m w with
           | Ok a w' => k a w'
           | Panic msg => Panic msg
           end.

Definition get : M World := fun w => Ok w w.

(** The world after the calls [evs] have been recorded. *)
Definition traced (w : World) (evs : list Event) : World :=
  {| engines := engines w; options := options w; limiters := limiters w;
     cores := cores w; trace := trace w ++ evs |}.

Definition log (ev : Event) : M unit := fun w => Ok tt (traced w [ev]).

Notation "'let*' x ':=' m 'in' k" := (bind m (fun x => k))
  (at level 10, x name, m at level 100, k at level 200).
Notation "'let*' ' pat ':=' m 'in' k" := (bind m (fun x => let 'pat := x in k))
  (at level 10, pat pattern, m at level 100, k at level 200).
Notation "'exec' m 'in' k" := (bind m (fun _ => k))
  (at level 10, m at level 100, k at level 200).

(** [if err != nil { return err }] *)
Notation "'return_if_err' err 'in' k" :=
  (match err with Some err' => ret (Some err') | None => k end)
  (at level 10, err at level 0, k at level 200).

(** *** Dereference, assignment through a pointer, allocation *)

Definition nil_deref : string := "invalid memory address or nil pointer dereference".

Definition load_engine (p : ptr) : M NucleiEngine :=
  fun w => match p with
           | Some l => match engines w !! l with
                       | Some e => Ok e w
                       | None => Panic nil_deref
                       end
           | None => Panic nil_deref
           end.

Definition load_options (p : ptr) : M types_Options :=
  fun w => match p with
           | Some l => match options w !! l with
                       | Some o => Ok o w
                       | None => Panic nil_deref
                       end
           | None => Panic nil_deref
           end.

Definition store_engine (p : ptr) (e : NucleiEngine) : M unit :=
  fun w => match p with
           | Some l =>
               Ok tt {| engines := <[l := e]> (engines w); options := options w;
                        limiters := limiters w; cores := cores w;
                        trace := trace w |}
           | None => Panic nil_deref
           end.

Definition store_options (p : ptr) (o : types_Options) : M unit :=
  fun w => match p with
           | Some l =>
               Ok tt {| engines := engines w; options := <[l := o]> (options w);
                        limiters := limiters w; cores := cores w;
                        trace := trace w |}
           | None => Panic nil_deref
           end.

Definition alloc_engine (e : NucleiEngine) : M ptr :=
  fun w => let l := fresh (dom (engines w)) in
           Ok (Some l) {| engines := <[l := e]> (engines w);
                          options := options w; limiters := limiters w;
                          cores := cores w; trace := trace w |}.

Definition alloc_options (o : types_Options) : M ptr :=
  fun w => let l := fresh (dom (options w)) in
           Ok (Some l) {| engines := engines w;
                          options := <[l := o]> (options w);
                          limiters := limiters w; cores := cores w;
                          trace := trace w |}.

Definition alloc_limiter (x : Limiter) : M ptr :=
  fun w => let l := fresh (dom (limiters w)) in
           Ok (Some l) {| engines := engines w; options := options w;
                          limiters := <[l := x]> (limiters w);
                          cores := cores w; trace := trace w |}.

(** [ratelimit.New(context.Background(), max, duration)] and
    [ratelimit.NewUnlimited(context.Background())]: a new limiter each. *)
Definition ratelimit_New (max : Z) (duration : Z) : M ptr :=
  alloc_limiter (Limited max duration).

Definition ratelimit_NewUnlimited : M ptr := alloc_limiter Unlimited.

(** [core.New(opts)] and [engine.SetExecuterOptions(x)]. *)
Definition core_New (o : ptr) : M ptr :=
  fun w => let l := fresh (dom (cores w)) in
           Ok (Some l) {| engines := engines w; options := options w;
                          limiters := limiters w;
                          cores := <[l := {| core_options := o;
                                             core_executerOpts := None |}]>
                                     (cores w);
                          trace := trace w |}.

Definition core_SetExecuterOptions (p : ptr) (x : ExecutorOptions) : M unit :=
  fun w => match p with
           | Some l =>
               match cores w !! l with
               | Some c =>
                   Ok tt {| engines := engines w; options := options w;
                            limiters := limiters w;
                            cores := <[l := {| core_options := core_options c;
                                               core_executerOpts := Some x |}]>
                                       (cores w);
                            trace := trace w |}
               | None => Panic nil_deref
               end
           | None => Panic nil_deref
           end.

(** ** createEphemeralObjects *)

Definition createEphemeralObjects (base : ptr) (o : ptr)
  : M (unsafeOptions * option error) :=
  let* b := load_engine base in
  let executerOpts0 :=
    {| Output := customWriter (fields b);
       Options := o;
       Progress := customProgress (fields b);
       Catalog := catalog (fields b);
       IssuesClient := rc (fields b);
       RateLimiter := rateLimiter (fields b);
       Interactsh := interactshClient (fields b);
       HostErrorsCache := hostErrCache (fields b);
       Colorizer := aurora_NewAurora true;
       ResumeCfg := types_NewResumeCfg;
       WorkflowLoader_ := None |} in
  let* ov := load_options o in
  let* limiter :=
    (if (0 <? RateLimitMinute ov)%Z
     then ratelimit_New (uint (RateLimitMinute ov)) time_Minute
     else if (0 <? RateLimit ov)%Z
          then ratelimit_New (uint (RateLimit ov)) time_Second
          else ratelimit_NewUnlimited) in
  let executerOpts1 := set_RateLimiter limiter executerOpts0 in
  let* engine := core_New o in
  exec core_SetExecuterOptions engine executerOpts1 in
  ret ({| executerOpts := executerOpts1; engine := engine |}, None).

(** ** Option functions *)

(** [type NucleiSDKOptions func(e *NucleiEngine) error].  An option reads and
    updates the engine it is handed and the options object that engine points
    to ([e.opts.X = ...], [e.x = ...]); it is given no other pointer, and it
    leaves [e.opts] itself in place. *)
Definition NucleiSDKOptions : Type :=
  engineFields -> types_Options -> engineFields * types_Options * option error.

(** [option(e)] *)
Definition call_option (optfn : NucleiSDKOptions) (e : ptr) : M (option error) :=
  let* x := load_engine e in
  let* o := load_options (opts x) in
  let '(f', o', err) := optfn (fields x) o in
  exec store_options (opts x) o' in
  exec store_engine e {| opts := opts x; fields := f' |} in
  ret err.

(** [for _, option := range opts { if err := option(e); err != nil { return err } }],
    the loop of both the constructor and [ExecuteNucleiWithOpts]; [i] counts
    the iterations for the trace. *)
Fixpoint apply_options (e : ptr) (optfns : list NucleiSDKOptions) (i : nat)
  : M (option error) :=
  match optfns with
  | [] => ret None
  | optfn :: more =>
      exec log (EvOption i) in
      let* err := call_option optfn e in
      match err with
      | Some err' => ret (Some err')
      | None => apply_options e more (S i)
      end
  end.

(** ** The packages the facade drives *)

(** [types.DefaultOptions()] and [e.init()]; then [parsers.NewLoader],
    [loader.New], [store.Load], [store.Templates], [store.Workflows] and
    [engine.ExecuteScanWithOpts].  They may read the world; workflows are
    templates too. *)
Class Packages : Type := {
  DefaultOptions : types_Options;
  NucleiEngine_init : ptr -> M (option error);
  parsers_NewLoader : ExecutorOptions -> World -> error + WorkflowLoader;
  loader_New : loader_Config -> World -> error + Store;
  store_Load : Store -> World -> Store;
  store_Templates : Store -> list Template;
  store_Workflows : Store -> list Template;
  core_ExecuteScanWithOpts :
    ptr -> list Template -> SimpleInputProvider -> bool -> World -> ScanResult
}.

Context {P : Packages}.

Definition newline : string := String (Ascii.ascii_of_nat 10) EmptyString.
Definition fmt_workflow_loader : string :=
  ("Could not create workflow loader: %s" ++ newline)%string.
Definition fmt_loader_client : string :=
  ("Could not create loader client: %s" ++ newline)%string.

(** ** NewThreadSafeNucleiEngine *)

Definition NewThreadSafeNucleiEngine (optfns : list NucleiSDKOptions)
  : M (option ThreadSafeNucleiEngine * option error) :=
  let* o := alloc_options DefaultOptions in
  let* e := alloc_engine {| opts := o; fields := zero_fields threadSafe |} in
  let* err := apply_options e optfns 0 in
  match err with
  | Some err' => ret (None, Some err')
  | None =>
      exec log (EvInit e) in
      let* err := NucleiEngine_init e in
      match err with
      | Some err' => ret (None, Some err')
      | None => ret (Some {| eng := e |}, None)
      end
  end.

(** ** ExecuteNucleiWithOpts *)

(** [baseOpts := *e.eng.opts] and
    [tmpEngine := &NucleiEngine{opts: &baseOpts, mode: threadSafe}] *)
Definition clone_base (e : ThreadSafeNucleiEngine) : M ptr :=
  let* b := load_engine (eng e) in
  let* baseOpts := load_options (opts b) in
  let* p := alloc_options baseOpts in
  alloc_engine {| opts := p; fields := zero_fields threadSafe |}.

(** [for _, target := range targets { inputProvider.Set(target) }] *)
Fixpoint load_targets (targets : list string) (inputProvider : SimpleInputProvider)
  : M SimpleInputProvider :=
  match targets with
  | [] => ret inputProvider
  | target :: more =>
      exec log (EvSet target) in
      load_targets more (SimpleInputProvider_Set inputProvider target)
  end.

(** The statements of the method, in order.  [parsers.NewLoader] is handed
    the address of [unsafeOpts.executerOpts]; here it gets the value, the
    workflow loader being set in it on the next line.  The value returned by
    the scan is dropped, as [_ =] does. *)
Definition ExecuteNucleiWithOpts (e : ThreadSafeNucleiEngine)
    (targets : list string) (optfns : list NucleiSDKOptions) : M (option error) :=
  let* tmpEngine := clone_base e in
  let* err := apply_options tmpEngine optfns 0 in
  return_if_err err in
  let* tmp := load_engine tmpEngine in
  let* '(unsafeOpts, err) := createEphemeralObjects (eng e) (opts tmp) in
  return_if_err err in
  exec log EvNewLoader in
  let* w := get in
  match parsers_NewLoader (executerOpts unsafeOpts) w with
  | inl err' => ret (Some (errorutil_New fmt_workflow_loader err'))
  | inr workflowLoader =>
      let unsafeOpts' :=
        {| executerOpts := set_WorkflowLoader workflowLoader (executerOpts unsafeOpts);
           engine := engine unsafeOpts |} in
      let* tmp := load_engine tmpEngine in
      let* b := load_engine (eng e) in
      exec log EvLoaderNew in
      let* w := get in
      match loader_New {| cfg_options := opts tmp;
                          cfg_catalog := catalog (fields b);
                          cfg_executerOpts := executerOpts unsafeOpts' |} w with
      | inl err' => ret (Some (errorutil_New fmt_loader_client err'))
      | inr store0 =>
          exec log EvStoreLoad in
          let* w := get in
          let store := store_Load store0 w in
          let* inputProvider := load_targets targets {| Inputs := [] |} in
          if (length (store_Templates store) =? 0)%nat
             && (length (store_Workflows store) =? 0)%nat
          then ret (Some ErrNoTemplatesAvailable)
          else if (SimpleInputProvider_Count inputProvider =? 0)%Z
          then ret (Some ErrNoTargetsAvailable)
          else
            let* tmp := load_engine tmpEngine in
            let* engine := core_New (opts tmp) in
            exec core_SetExecuterOptions engine (executerOpts unsafeOpts') in
            exec log (EvExecuteScan engine (store_Templates store) inputProvider false) in
            let* w := get in
            let _ := core_ExecuteScanWithOpts engine (store_Templates store)
                       inputProvider false w in
            exec log (EvWait engine) in
            ret None
      end
  end.


(** *** The two halves of [ExecuteNucleiWithOpts]

    [resolve] is the call up to and including [store.Load()]: it yields the
    error returned so far, or the temporary engine, the ephemeral objects and
    the loaded store.  [validate_and_scan] is the rest of the call. *)
Definition resolve (e : ThreadSafeNucleiEngine) (optfns : list NucleiSDKOptions)
  : M (error + ptr * unsafeOptions * Store) :=
  let* tmpEngine := clone_base e in
  let* err := apply_options tmpEngine optfns 0 in
  match err with
  | Some err' => ret (inl err')
  | None =>
      let* tmp := load_engine tmpEngine in
      let* '(unsafeOpts, err) := createEphemeralObjects (eng e) (opts tmp) in
      match err with
      | Some err' => ret (inl err')
      | None =>
          exec log EvNewLoader in
          let* w := get in
          match parsers_NewLoader (executerOpts unsafeOpts) w with
          | inl err' => ret (inl (errorutil_New fmt_workflow_loader err'))
          | inr workflowLoader =>
              let unsafeOpts' :=
                {| executerOpts :=
                     set_WorkflowLoader workflowLoader (executerOpts unsafeOpts);
                   engine := engine unsafeOpts |} in
              let* tmp := load_engine tmpEngine in
              let* b := load_engine (eng e) in
              exec log EvLoaderNew in
              let* w := get in
              match loader_New {| cfg_options := opts tmp;
                                  cfg_catalog := catalog (fields b);
                                  cfg_executerOpts := executerOpts unsafeOpts' |} w with
              | inl err' => ret (inl (errorutil_New fmt_loader_client err'))
              | inr store0 =>
                  exec log EvStoreLoad in
                  let* w := get in
                  ret (inr (tmpEngine, unsafeOpts', store_Load store0 w))
              end
          end
      end
  end.

Definition validate_and_scan (tmpEngine : ptr) (unsafeOpts : unsafeOptions)
    (store : Store) (targets : list string) : M (option error) :=
  let* inputProvider := load_targets targets {| Inputs := [] |} in
  if (length (store_Templates store) =? 0)%nat
     && (length (store_Workflows store) =? 0)%nat
  then ret (Some ErrNoTemplatesAvailable)
  else if (SimpleInputProvider_Count inputProvider =? 0)%Z
  then ret (Some ErrNoTargetsAvailable)
  else
    let* tmp := load_engine tmpEngine in
    let* engine := core_New (opts tmp) in
    exec core_SetExecuterOptions engine (executerOpts unsafeOpts) in
    exec log (EvExecuteScan engine (store_Templates store) inputProvider false) in
    let* w := get in
    let _ := core_ExecuteScanWithOpts engine (store_Templates store)
               inputProvider false w in
    exec log (EvWait engine) in
    ret None.

(** Modelled from the spec: the executor's work items are not among the
    sources at hand; it runs "one per template×target pairing". *)
Definition work_items (templates : list Template) (target : SimpleInputProvider)
  : list (Template * MetaInput) :=
  list_prod templates (Inputs target).

(** ** Concurrent invocations

    The configuring phase of one invocation, one statement at a time: the
    clone of the base options, then one option function per step. *)
Inductive invocation : Type :=
| Entered (optfns : list NucleiSDKOptions)
| Configuring (tmpEngine : ptr) (i : nat) (optfns : list NucleiSDKOptions)
| Returned (err : error).

Definition step (e : ThreadSafeNucleiEngine) (s : invocation) : M invocation :=
  match s with
  | Entered optfns =>
      let* tmpEngine := clone_base e in
      ret (Configuring tmpEngine 0 optfns)
  | Configuring tmpEngine i [] => ret s
  | Configuring tmpEngine i (optfn :: more) =>
      exec log (EvOption i) in
      let* err := call_option optfn tmpEngine in
      match err with
      | Some err' => ret (Returned err')
      | None => ret (Configuring tmpEngine (S i) more)
      end
  | Returned err => ret s
  end.

(** [n] steps of one invocation on its own. *)
Fixpoint steps (e : ThreadSafeNucleiEngine) (n : nat) (s : invocation)
  : M invocation :=
  match n with
  | O => ret s
  | S n' => let* s' := step e s in steps e n' s'
  end.

(** Two invocations on the same facade; the schedule says whose turn it is. *)
Fixpoint interleave (e : ThreadSafeNucleiEngine) (schedule : list bool)
    (s1 s2 : invocation) : M (invocation * invocation) :=
  match schedule with
  | [] => ret (s1, s2)
  | true :: more => let* s1' := step e s1 in interleave e more s1' s2
  | false :: more => let* s2' := step e s2 in interleave e more s1 s2'
  end.

(** How many of the option functions are called when they are run in
    sequence on [f] and [o]: all of them, or those up to the first error. *)
Fixpoint calls (optfns : list NucleiSDKOptions) (f : engineFields)
    (o : types_Options) : nat :=
  match optfns with
  | [] => 0
  | optfn :: more =>
      let '(f', o', err) := optfn f o in
      match err with
      | Some _ => 1
      | None => S (calls more f' o')
      end
  end.

(** What a sequence of option functions does to the fields and options it
    is run on, stopping at the first error. *)
Fixpoint fold_options (optfns : list NucleiSDKOptions) (f : engineFields)
    (o : types_Options) : engineFields * types_Options * option error :=
  match optfns with
  | [] => (f, o, None)
  | optfn :: more =>
      let '(f', o', err) := optfn f o in
      match err with
      | Some _ => (f', o', err)
      | None => fold_options more f' o'
      end
  end.

(** The facade [e] serves from the engine at [lb], whose options are the
    object at [pb] holding [bo]. *)
Definition serves (e : ThreadSafeNucleiEngine) (w : World) (lb : loc)
    (b : NucleiEngine) (pb : loc) (bo : types_Options) : Prop :=
  eng e = Some lb /\ engines w !! lb = Some b /\
  opts b = Some pb /\ options w !! pb = Some bo.

(** An invocation called with [optfns] sees only its own options: its
    temporary engine and its options object are not the shared ones, and they
    hold what its own option functions so far make of the base value [bo]. *)
Definition isolated (lb pb : loc) (bo : types_Options)
    (optfns : list NucleiSDKOptions) (s : invocation) (w : World) : Prop :=
  match s with
  | Entered fs => fs = optfns
  | Configuring tmpEngine i more =>
      exists l p x o done,
        tmpEngine = Some l /\ l <> lb /\ engines w !! l = Some x /\
        opts x = Some p /\ p <> pb /\ options w !! p = Some o /\
        optfns = done ++ more /\ length done = i /\
        fold_options done (zero_fields threadSafe) bo = (fields x, o, None)
  | Returned err =>
      exists done more f o,
        optfns = done ++ more /\
        fold_options done (zero_fields threadSafe) bo = (f, o, Some err)
  end.

(** Two invocations do not share their temporary engine nor their options
    object. *)
Definition apart (s1 s2 : invocation) (w : World) : Prop :=
  match s1, s2 with
  | Configuring (Some l1) _ _, Configuring (Some l2) _ _ =>
      l1 <> l2 /\
      forall x1 x2, engines w !! l1 = Some x1 -> engines w !! l2 = Some x2 ->
                    opts x1 <> opts x2
  | _, _ => True
  end.

End Facade.

Arguments types_Options : clear implicits.
Arguments ExecutorOptions : clear implicits.
Arguments core_Engine : clear implicits.
Arguments unsafeOptions : clear implicits.
Arguments loader_Config : clear implicits.
Arguments Event : clear implicits.
Arguments World : clear implicits.
Arguments outcome : clear implicits.
Arguments M : clear implicits.
Arguments NucleiSDKOptions : clear implicits.
Arguments invocation : clear implicits.
Arguments Packages : clear implicits.
Arguments Ok {OptionsRest Template WorkflowLoader A} a w.
Arguments Panic {OptionsRest Template WorkflowLoader A} msg.
Arguments returned {OptionsRest Template WorkflowLoader A} r.

(** ** A catalogue in memory, for the examples *)

Definition demo_options : types_Options unit :=
  {| RateLimit := 150; RateLimitMinute := 0; rest := tt |}.

(** A loader that resolves the given templates and workflows, and an
    executor whose scan reports an error. *)
Definition demo_packages (templates workflows : list string)
  : Packages unit string unit (list string * list string) (option error) :=
  {| DefaultOptions := demo_options;
     NucleiEngine_init := fun _ => ret None;
     parsers_NewLoader := fun _ _ => inr tt;
     loader_New := fun _ _ => inr ([], []);
     store_Load := fun _ _ => (templates, workflows);
     store_Templates := fst;
     store_Workflows := snd;
     core_ExecuteScanWithOpts :=
       fun _ _ _ _ _ => Some (errors_New "scan failed") |}.

Definition demo_base : NucleiEngine :=
  {| opts := Some 1%positive; fields := zero_fields threadSafe |}.

Definition demo_world : World unit string unit :=
  {| engines := {[ 1%positive := demo_base ]};
     options := {[ 1%positive := demo_options ]};
     limiters := ∅;
     cores := ∅;
     trace := [] |}.

Definition demo_facade : ThreadSafeNucleiEngine := {| eng := Some 1%positive |}.

(** Option functions: set the two quotas; refuse. *)
Definition WithRateLimit (perSecond perMinute : Z) : NucleiSDKOptions unit :=
  fun f o =>
    (f, {| RateLimit := perSecond; RateLimitMinute := perMinute; rest := rest o |},
     None).

Definition NotSupported : NucleiSDKOptions unit :=
  fun f o => (f, o, Some ErrOptionsNotSupported).

(** ** The effect of the builder and of the configuring phase, spelled out *)

Section Effects.

Context {OptionsRest Template WorkflowLoader : Type}.

(** The limiter chosen at the end of [createEphemeralObjects]. *)
Definition limiter_for (o : types_Options OptionsRest) : Limiter :=
  if (0 <? RateLimitMinute o)%Z
  then Limited (uint (RateLimitMinute o)) time_Minute
  else if (0 <? RateLimit o)%Z
       then Limited (uint (RateLimit o)) time_Second
       else Unlimited.

(** The executor options [createEphemeralObjects] returns for the base
    engine [b], the options pointer [po] and the limiter [l]. *)
Definition ephemeral_options (b : NucleiEngine) (po l : ptr)
  : ExecutorOptions WorkflowLoader :=
  {| Output := customWriter (fields b);
     Options := po;
     Progress := customProgress (fields b);
     Catalog := catalog (fields b);
     IssuesClient := rc (fields b);
     RateLimiter := l;
     Interactsh := interactshClient (fields b);
     HostErrorsCache := hostErrCache (fields b);
     Colorizer := aurora_NewAurora true;
     ResumeCfg := types_NewResumeCfg;
     WorkflowLoader_ := None |}.

(** The objects returned in world [w], and the world left: one more
    limiter and one more executor, each at the next free address. *)
Definition ephemeral_objects (w : World OptionsRest Template WorkflowLoader)
    (b : NucleiEngine) (po : ptr) : unsafeOptions WorkflowLoader :=
  {| executerOpts :=
       ephemeral_options b po (Some (fresh (dom (limiters w))));
     engine := Some (fresh (dom (cores w))) |}.

Definition ephemeral_world (w : World OptionsRest Template WorkflowLoader)
    (b : NucleiEngine) (po : ptr) (o : types_Options OptionsRest)
  : World OptionsRest Template WorkflowLoader :=
  {| engines := engines w;
     options := options w;
     limiters := <[fresh (dom (limiters w)) := limiter_for o]> (limiters w);
     cores := <[fresh (dom (cores w)) :=
                  {| core_options := po;
                     core_executerOpts :=
                       Some (ephemeral_options b po
                               (Some (fresh (dom (limiters w))))) |}]>
                (cores w);
     trace := trace w |}.

(** The world left by the clone and by [n] calls of option functions that
    made the fields [f] and the options [o]: one more engine and one more
    options object, each at the next free address. *)
Definition configured_world (w : World OptionsRest Template WorkflowLoader)
    (f : engineFields) (o : types_Options OptionsRest) (n : nat)
  : World OptionsRest Template WorkflowLoader :=
  {| engines := <[fresh (dom (engines w)) :=
                    {| opts := Some (fresh (dom (options w))); fields := f |}]>
                  (engines w);
     options := <[fresh (dom (options w)) := o]> (options w);
     limiters := limiters w;
     cores := cores w;
     trace := trace w ++ map EvOption (seq 0 n) |}.

(** Every object of [w] is in [w'] as it was, and the trace has only grown. *)
Definition extends (w w' : World OptionsRest Template WorkflowLoader) : Prop :=
  engines w ⊆ engines w' /\ options w ⊆ options w' /\
  limiters w ⊆ limiters w' /\ cores w ⊆ cores w' /\
  exists evs, trace w' = trace w ++ evs.

End Effects.

(** Packages whose two loaders and [init] answer as given. *)
Definition demo_packages_with (newLoader : error + unit)
    (loaderNew : error + unit) (init : option error)
    (templates workflows : list string)
  : Packages unit string unit (list string * list string) (option error) :=
  {| DefaultOptions := demo_options;
     NucleiEngine_init := fun _ => ret init;
     parsers_NewLoader := fun _ _ => newLoader;
     loader_New := fun _ _ =>
                     match loaderNew with
                     | inl err => inl err
                     | inr _ => inr ([], [])
                     end;
     store_Load := fun _ _ => (templates, workflows);
     store_Templates := fst;
     store_Workflows := snd;
     core_ExecuteScanWithOpts := fun _ _ _ _ _ => None |}.

(** An option function that sets a writer on the engine it is handed. *)
Definition WithWriter (writer : loc) : NucleiSDKOptions unit :=
  fun f o =>
    ({| mode := mode f; customWriter := Some writer;
        customProgress := customProgress f; catalog := catalog f; rc := rc f;
        rateLimiter := rateLimiter f; interactshClient := interactshClient f;
        hostErrCache := hostErrCache f |}, o, None).


(** * The scan handlers (package handlers, in the same source file)

    [AddScan], [GetScans], [GetScan] and [GetScanProgress].  The database
    queries, the scan service, the JSON decoder, [strconv.ParseInt] and the
    response writer are the fields of the class [Services]; the calls made on
    them are recorded in the server. *)

Module handlers.

(** [sql.NullString], [sql.NullInt64], [sql.NullBool] *)
Module NullString.
Record t : Type := { String : string; Valid : bool }.
End NullString.

Module NullInt64.
Record t : Type := { Int64 : Z; Valid : bool }.
End NullInt64.

Module NullBool.
Record t : Type := { Bool : bool; Valid : bool }.
End NullBool.

Module AddScanRequest.
Record t : Type := {
  Name : string;
  Templates : list string;
  Targets : list string;
  Config : string;
  RunNow : bool;
  Reporting : string;
  ScheduleOccurence : string;
  ScheduleTime : string;
  ScanSource : string
}.
End AddScanRequest.

(** [dbsql.AddScanParams], [scans.ScanRequest] and [dbsql.Scan]: the fields
    the handlers write and read. *)
Module AddScanParams.
Record t : Type := {
  Name : NullString.t;
  Status : NullString.t;
  Hosts : NullInt64.t;
  Scansource : NullString.t;
  Templates : list string;
  Targets : list string;
  Config : NullString.t;
  Runnow : NullBool.t;
  Reporting : NullString.t;
  Scheduleoccurence : NullString.t;
  Scheduletime : NullString.t
}.
End AddScanParams.

Module ScanRequest.
Record t : Type := {
  ScanID : Z;
  Templates : list string;
  Targets : list string;
  Config : string;
  RunNow : bool;
  Reporting : string
}.
End ScanRequest.

Module Scan.
Record t : Type := {
  ID : Z;
  Status : NullString.t;
  Name : NullString.t;
  Templates : list string;
  Targets : list string;
  Config : NullString.t;
  Runnow : NullBool.t;
  Reporting : NullString.t;
  Scheduleoccurence : NullString.t;
  Scheduletime : NullString.t;
  Scansource : NullString.t;
  Scantime : NullInt64.t;
  Hosts : NullInt64.t
}.
End Scan.

Module GetScanResponse.
Record t : Type := {
  ID : Z;
  Status : string;
  Name : string;
  Templates : list string;
  Targets : list string;
  Config : string;
  RunNow : bool;
  Reporting : string;
  ScheduleOccurence : string;
  ScheduleTime : string;
  ScanSource : string;
  ScanTime : Z;
  Hosts : Z
}.
End GetScanResponse.

(** The zero value of [GetScanResponse], as [make] fills a slice with. *)
Definition zero_response : GetScanResponse.t :=
  {| GetScanResponse.ID := 0; GetScanResponse.Status := "";
     GetScanResponse.Name := ""; GetScanResponse.Templates := [];
     GetScanResponse.Targets := []; GetScanResponse.Config := "";
     GetScanResponse.RunNow := false; GetScanResponse.Reporting := "";
     GetScanResponse.ScheduleOccurence := ""; GetScanResponse.ScheduleTime := "";
     GetScanResponse.ScanSource := ""; GetScanResponse.ScanTime := 0;
     GetScanResponse.Hosts := 0 |}.

(** What the handlers use of [echo.Context]: the request body, the query
    parameters and the path parameters. *)
Record echo_Context : Type := {
  Body : string;
  QueryParam : string -> string;
  Param : string -> string
}.

(** [dst[i] = v]: an index out of range panics. *)
Definition assign {A} (dst : list A) (i : nat) (v : A) : option (list A) :=
  if decide (i < length dst)%nat then Some (<[i := v]> dst) else None.

(** [for i, value := range src { dst[i] = f(value) }], from index [i] on. *)
Fixpoint fill {A B} (f : A -> B) (src : list A) (i : nat) (dst : list B)
  : option (list B) :=
  match src with
  | [] => Some dst
  | value :: more =>
      match assign dst i (f value) with
      | Some dst' => fill f more (S i) dst'
      | None => None
      end
  end.

(** The struct literal of [GetScans], for one row. *)
Definition GetScans_item (value : Scan.t) : GetScanResponse.t :=
  {| GetScanResponse.ID := Scan.ID value;
     GetScanResponse.Status := NullString.String (Scan.Status value);
     GetScanResponse.Name := NullString.String (Scan.Name value);
     GetScanResponse.Templates := Scan.Templates value;
     GetScanResponse.Targets := Scan.Targets value;
     GetScanResponse.Config := NullString.String (Scan.Config value);
     GetScanResponse.RunNow := NullBool.Bool (Scan.Runnow value);
     GetScanResponse.Reporting := NullString.String (Scan.Reporting value);
     GetScanResponse.ScheduleOccurence :=
       NullString.String (Scan.Scheduleoccurence value);
     GetScanResponse.ScheduleTime := NullString.String (Scan.Scheduletime value);
     GetScanResponse.ScanSource := NullString.String (Scan.Scansource value);
     GetScanResponse.ScanTime := NullInt64.Int64 (Scan.Scantime value);
     GetScanResponse.Hosts := NullInt64.Int64 (Scan.Hosts value) |}.

(** The struct literal of [GetScan]. *)
Definition GetScan_value (scan : Scan.t) : GetScanResponse.t :=
  {| GetScanResponse.ID := Scan.ID scan;
     GetScanResponse.Status := NullString.String (Scan.Status scan);
     GetScanResponse.Name := NullString.String (Scan.Name scan);
     GetScanResponse.Templates := Scan.Templates scan;
     GetScanResponse.Targets := Scan.Targets scan;
     GetScanResponse.Config := NullString.String (Scan.Config scan);
     GetScanResponse.RunNow := NullBool.Bool (Scan.Runnow scan);
     GetScanResponse.Reporting := NullString.String (Scan.Reporting scan);
     GetScanResponse.ScheduleOccurence :=
       NullString.String (Scan.Scheduleoccurence scan);
     GetScanResponse.ScheduleTime := NullString.String (Scan.Scheduletime scan);
     GetScanResponse.ScanSource := NullString.String (Scan.Scansource scan);
     GetScanResponse.ScanTime := NullInt64.Int64 (Scan.Scantime scan);
     GetScanResponse.Hosts := NullInt64.Int64 (Scan.Hosts scan) |}.

(** The [dbsql.AddScanParams] literal of [AddScan]. *)
Definition AddScan_params (req : AddScanRequest.t) (targets : list string)
    (hostCount : Z) : AddScanParams.t :=
  {| AddScanParams.Name :=
       {| NullString.String := AddScanRequest.Name req; NullString.Valid := true |};
     AddScanParams.Status :=
       {| NullString.String := "scheduled"; NullString.Valid := true |};
     AddScanParams.Hosts :=
       {| NullInt64.Int64 := hostCount; NullInt64.Valid := true |};
     AddScanParams.Scansource :=
       {| NullString.String := AddScanRequest.ScanSource req;
          NullString.Valid := true |};
     AddScanParams.Templates := AddScanRequest.Templates req;
     AddScanParams.Targets := targets;
     AddScanParams.Config :=
       {| NullString.String := AddScanRequest.Config req; NullString.Valid := true |};
     AddScanParams.Runnow :=
       {| NullBool.Bool := AddScanRequest.RunNow req; NullBool.Valid := true |};
     AddScanParams.Reporting :=
       {| NullString.String := AddScanRequest.Reporting req;
          NullString.Valid := true |};
     AddScanParams.Scheduleoccurence :=
       {| NullString.String := AddScanRequest.ScheduleOccurence req;
          NullString.Valid := true |};
     AddScanParams.Scheduletime :=
       {| NullString.String := AddScanRequest.ScheduleTime req;
          NullString.Valid := true |} |}.

(** The [scans.ScanRequest] literal of [AddScan]. *)
Definition AddScan_request (req : AddScanRequest.t) (id : Z) : ScanRequest.t :=
  {| ScanRequest.ScanID := id;
     ScanRequest.Templates := AddScanRequest.Templates req;
     ScanRequest.Targets := AddScanRequest.Targets req;
     ScanRequest.Config := AddScanRequest.Config req;
     ScanRequest.RunNow := AddScanRequest.RunNow req;
     ScanRequest.Reporting := AddScanRequest.Reporting req |}.

(** A row with every validity flag set to [v]. *)
Definition with_valid (v : bool) (row : Scan.t) : Scan.t :=
  let str (x : NullString.t) :=
    {| NullString.String := NullString.String x; NullString.Valid := v |} in
  let int (x : NullInt64.t) :=
    {| NullInt64.Int64 := NullInt64.Int64 x; NullInt64.Valid := v |} in
  {| Scan.ID := Scan.ID row;
     Scan.Status := str (Scan.Status row);
     Scan.Name := str (Scan.Name row);
     Scan.Templates := Scan.Templates row;
     Scan.Targets := Scan.Targets row;
     Scan.Config := str (Scan.Config row);
     Scan.Runnow := {| NullBool.Bool := NullBool.Bool (Scan.Runnow row);
                       NullBool.Valid := v |};
     Scan.Reporting := str (Scan.Reporting row);
     Scan.Scheduleoccurence := str (Scan.Scheduleoccurence row);
     Scan.Scheduletime := str (Scan.Scheduletime row);
     Scan.Scansource := str (Scan.Scansource row);
     Scan.Scantime := int (Scan.Scantime row);
     Scan.Hosts := int (Scan.Hosts row) |}.

Section Server.

(** The database, the scan service and the progress it reports. *)
Context {DB ScanService ProgressReport : Type}.

Inductive Payload : Type :=
| ScansPayload (targets : list GetScanResponse.t)
| ScanPayload (value : GetScanResponse.t)
| ProgressPayload (progress : ProgressReport).

Inductive Call : Type :=
| CallAddScan (arg : AddScanParams.t)
| CallGetScans
| CallGetScansBySearchKey (key : NullString.t)
| CallGetScan (id : Z)
| CallQueue (req : ScanRequest.t)
| CallJSON (code : Z) (body : Payload).

Record Server : Type := {
  db : DB;
  scans : ScanService;
  calls : list Call
}.

(** [jsoniter]'s [Decode], [scans.CalculateTargetCount], the queries of
    [dbsql], [s.scans.Queue], [s.scans.Progress], [strconv.ParseInt(_, 10, 64)]
    and [ctx.JSON]. *)
Class Services : Type := {
  Decode : string -> AddScanRequest.t * option error;
  CalculateTargetCount : list string -> DB -> Z;
  Queries_AddScan : AddScanParams.t -> DB -> Z * option error * DB;
  Queries_GetScans : DB -> list Scan.t * option error;
  Queries_GetScansBySearchKey : NullString.t -> DB -> list Scan.t * option error;
  Queries_GetScan : Z -> DB -> Scan.t * option error;
  Queue : ScanRequest.t -> ScanService -> ScanService;
  Progress : ScanService -> ProgressReport;
  ParseInt : string -> Z * option error;
  JSON : Z -> Payload -> option error
}.

Context {Sv : Services}.

Inductive result : Type :=
| Returned (err : option error) (s : Server)
| Panicked (msg : string).

Definition index_out_of_range : string := "index out of range".

Definition called (s : Server) (c : Call) : Server :=
  {| db := db s; scans := scans s; calls := calls s ++ [c] |}.

Definition AddScan (s : Server) (ctx : echo_Context) : result :=
  let '(req, err) := Decode (Body ctx) in
  match err with
  | Some err' => Returned (Some err') s
  | None =>
      match fill (fun value => value) (AddScanRequest.Targets req) 0
              (replicate (length (AddScanRequest.Targets req)) "") with
      | None => Panicked index_out_of_range
      | Some targets =>
          let hostCount :=
            CalculateTargetCount (AddScanRequest.Targets req) (db s) in
          let arg := AddScan_params req targets hostCount in
          let '(id, err, db') := Queries_AddScan arg (db s) in
          let s1 := {| db := db'; scans := scans s;
                       calls := calls s ++ [CallAddScan arg] |} in
          let s2 :=
            if AddScanRequest.RunNow req
            then {| db := db s1;
                    scans := Queue (AddScan_request req id) (scans s1);
                    calls := calls s1 ++ [CallQueue (AddScan_request req id)] |}
            else s1 in
          Returned err s2
      end
  end.

Definition GetScans (s : Server) (ctx : echo_Context) : result :=
  let searchKey := QueryParam ctx "search" in
  let '(response, err, s1) :=
    if decide (searchKey <> "")
    then
      let key := {| NullString.String := searchKey; NullString.Valid := true |} in
      (Queries_GetScansBySearchKey key (db s), called s (CallGetScansBySearchKey key))
    else (Queries_GetScans (db s), called s CallGetScans) in
  match err with
  | Some err' => Returned (Some err') s1
  | None =>
      match fill GetScans_item response 0
              (replicate (length response) zero_response) with
      | None => Panicked index_out_of_range
      | Some targets =>
          Returned (JSON 200 (ScansPayload targets))
                   (called s1 (CallJSON 200 (ScansPayload targets)))
      end
  end.

Definition GetScan (s : Server) (ctx : echo_Context) : result :=
  let queryParam := Param ctx "id" in
  let '(id, err) := ParseInt queryParam in
  match err with
  | Some err' => Returned (Some err') s
  | None =>
      let '(scan, err) := Queries_GetScan id (db s) in
      let s1 := called s (CallGetScan id) in
      match err with
      | Some err' => Returned (Some err') s1
      | None =>
          let value := GetScan_value scan in
          Returned (JSON 200 (ScanPayload value))
                   (called s1 (CallJSON 200 (ScanPayload value)))
      end
  end.

Definition GetScanProgress (s : Server) (ctx : echo_Context) : result :=
  let body := ProgressPayload (Progress (scans s)) in
  Returned (JSON 200 body) (called s (CallJSON 200 body)).

End Server.

Arguments Payload : clear implicits.
Arguments Call : clear implicits.
Arguments Server : clear implicits.
Arguments Services : clear implicits.
Arguments result : clear implicits.
Arguments Returned {DB ScanService ProgressReport} err s.
Arguments Panicked {DB ScanService ProgressReport} msg.

(** A server in memory, for the examples: the database is the list of the
    insertions made; the decoder, the insertion and the queries answer as
    given; only "7" parses as a number. *)
Definition demo_services (decoded : AddScanRequest.t * option error)
    (inserted : Z * option error) (rows : list Scan.t * option error)
    (row : Scan.t * option error)
  : Services (list AddScanParams.t) (list ScanRequest.t) nat :=
  {| Decode := fun _ => decoded;
     CalculateTargetCount := fun targets _ => Z.of_nat (length targets);
     Queries_AddScan := fun arg d => (inserted, d ++ [arg]);
     Queries_GetScans := fun _ => rows;
     Queries_GetScansBySearchKey := fun _ _ => rows;
     Queries_GetScan := fun _ _ => row;
     Queue := fun req q => q ++ [req];
     Progress := fun q => length q;
     ParseInt := fun x => if decide (x = "7") then (7%Z, None)
                          else (0%Z, Some (errors_New "invalid syntax"));
     JSON := fun _ _ => None |}.

Definition demo_request (runNow : bool) : AddScanRequest.t :=
  {| AddScanRequest.Name := "nightly";
     AddScanRequest.Templates := ["cves"];
     AddScanRequest.Targets := ["a.example"; "b.example"];
     AddScanRequest.Config := "default";
     AddScanRequest.RunNow := runNow;
     AddScanRequest.Reporting := "";
     AddScanRequest.ScheduleOccurence := "";
     AddScanRequest.ScheduleTime := "";
     AddScanRequest.ScanSource := "api" |}.

Definition demo_row (id : Z) (name : string) : Scan.t :=
  {| Scan.ID := id;
     Scan.Status := {| NullString.String := "done"; NullString.Valid := true |};
     Scan.Name := {| NullString.String := name; NullString.Valid := true |};
     Scan.Templates := ["cves"];
     Scan.Targets := ["a.example"];
     Scan.Config := {| NullString.String := ""; NullString.Valid := false |};
     Scan.Runnow := {| NullBool.Bool := true; NullBool.Valid := true |};
     Scan.Reporting := {| NullString.String := ""; NullString.Valid := false |};
     Scan.Scheduleoccurence := {| NullString.String := ""; NullString.Valid := false |};
     Scan.Scheduletime := {| NullString.String := ""; NullString.Valid := false |};
     Scan.Scansource := {| NullString.String := "api"; NullString.Valid := true |};
     Scan.Scantime := {| NullInt64.Int64 := 1500; NullInt64.Valid := true |};
     Scan.Hosts := {| NullInt64.Int64 := 1; NullInt64.Valid := true |} |}.

Definition demo_server : Server (list AddScanParams.t) (list ScanRequest.t) nat :=
  {| db := []; scans := []; calls := [] |}.

Definition demo_context (body search id : string) : echo_Context :=
  {| Body := body;
     QueryParam := fun name => if decide (name = "search") then search else "";
     Param := fun name => if decide (name = "id") then id else "" |}.

End handlers.


(** * Properties *)

Section Properties.

Context {OptionsRest Template WorkflowLoader Store ScanResult : Type}.
Context {P : Packages OptionsRest Template WorkflowLoader Store ScanResult}.

Abbreviation World' := (World OptionsRest Template WorkflowLoader).
Abbreviation Options' := (types_Options OptionsRest).
Abbreviation SDKOption := (NucleiSDKOptions OptionsRest).

Implicit Types (w : World') (e : ThreadSafeNucleiEngine) (b x : NucleiEngine)
  (bo o : Options') (optfns done more : list SDKOption) (l lb p pb : loc).

(** *** Loads and stores *)

Lemma load_engine_Some w l x :
  engines w !! l = Some x -> load_engine (Some l) w = Ok x w.
Proof. intros H. unfold load_engine. by rewrite H. Qed.

Lemma load_options_Some w p o :
  options w !! p = Some o -> load_options (Some p) w = Ok o w.
Proof. intros H. unfold load_options. by rewrite H. Qed.

Lemma uint_small (x : Z) : (0 < x)%Z -> is_int x -> uint x = x.
Proof.
  unfold is_int, uint. intros Hpos [_ Hhi].
  apply Z.mod_small. split; [lia|].
  eapply Z.lt_trans; [exact Hhi|]. reflexivity.
Qed.

(** ** createEphemeralObjects *)

(** The builder never returns an error, whatever it is called on. *)
Lemma createEphemeralObjects_no_error (base po : ptr) w u err w' :
  createEphemeralObjects base po w <> Ok (u, Some err) w'.
Proof.
  unfold createEphemeralObjects, bind, load_engine, load_options,
    ratelimit_New, ratelimit_NewUnlimited, alloc_limiter, core_New,
    core_SetExecuterOptions, ret.
  repeat (case_match; simplify_eq/=; try done).
Qed.

(** On a live engine and a live options object the builder returns its
    objects and a nil error; the limiter it installs is a new one. *)
Lemma createEphemeralObjects_run w lb b po o :
  engines w !! lb = Some b ->
  options w !! po = Some o ->
  exists u w',
    createEphemeralObjects (Some lb) (Some po) w = Ok (u, None) w' /\
    RateLimiter (executerOpts u) = Some (fresh (dom (limiters w))) /\
    limiters w' =
      <[fresh (dom (limiters w)) :=
          if (0 <? RateLimitMinute o)%Z
          then Limited (uint (RateLimitMinute o)) time_Minute
          else if (0 <? RateLimit o)%Z
               then Limited (uint (RateLimit o)) time_Second
               else Unlimited]> (limiters w) /\
    engines w' = engines w /\ options w' = options w /\ trace w' = trace w /\
    Options (executerOpts u) = Some po /\
    dom (cores w) ⊆ dom (cores w').
Proof.
  intros Hb Ho.
  unfold createEphemeralObjects, bind.
  rewrite (load_engine_Some _ _ _ Hb), (load_options_Some _ _ _ Ho).
  destruct (0 <? RateLimitMinute o)%Z; [|destruct (0 <? RateLimit o)%Z];
    cbn; rewrite lookup_insert_eq; cbn;
    (eexists _, _; split; [reflexivity|]; cbn;
     repeat split; try reflexivity; set_solver).
Qed.

(** ** The two halves make the whole *)

Lemma ExecuteNucleiWithOpts_split e targets optfns w :
  ExecuteNucleiWithOpts e targets optfns w =
  match resolve e optfns w with
  | Ok (inl err) w1 => Ok (Some err) w1
  | Ok (inr (tmpEngine, unsafeOpts, store)) w1 =>
      validate_and_scan tmpEngine unsafeOpts store targets w1
  | Panic msg => Panic msg
  end.
Proof.
  unfold ExecuteNucleiWithOpts, resolve, validate_and_scan, bind.
  destruct (clone_base e w) as [tmpEngine w1|]; [|done].
  destruct (apply_options tmpEngine optfns 0 w1) as [[err|] w2|]; [done| |done].
  destruct (load_engine tmpEngine w2) as [tmp w3|]; [|done].
  destruct (createEphemeralObjects (eng e) (opts tmp) w3)
    as [[u [err|]] w4|]; [done| |done].
  destruct (log EvNewLoader w4) as [[] w5|]; [|done].
  cbn [get].
  destruct (parsers_NewLoader (executerOpts u) w5) as [err|wl]; [done|].
  destruct (load_engine tmpEngine w5) as [tmp' w6|]; [|done].
  destruct (load_engine (eng e) w6) as [b w7|]; [|done].
  destruct (log EvLoaderNew w7) as [[] w8|]; [|done].
  destruct (loader_New _ w8) as [err|store0]; [done|].
  destruct (log EvStoreLoad w8) as [[] w9|]; [|done].
  reflexivity.
Qed.

(** ** Recording calls *)

Lemma traced_nil w : traced w [] = w.
Proof. destruct w. unfold traced. cbn. by rewrite app_nil_r. Qed.

Lemma traced_traced w (evs1 evs2 : list (Event Template)) :
  traced (traced w evs1) evs2 = traced w (evs1 ++ evs2).
Proof. unfold traced. cbn. by rewrite app_assoc. Qed.

Lemma load_engine_inv (q : ptr) w x w' :
  load_engine q w = Ok x w' ->
  w' = w /\ exists l, q = Some l /\ engines w !! l = Some x.
Proof.
  unfold load_engine. intros H.
  repeat case_match; simplify_eq. eauto.
Qed.

Lemma load_options_inv (q : ptr) w o w' :
  load_options q w = Ok o w' ->
  w' = w /\ exists p, q = Some p /\ options w !! p = Some o.
Proof.
  unfold load_options. intros H.
  repeat case_match; simplify_eq. eauto.
Qed.

(** ** The target loop *)

Lemma load_targets_run targets : forall (ip : SimpleInputProvider) w,
  load_targets targets ip w =
  Ok {| Inputs := Inputs ip ++ Inputs (provider_of targets) |}
     (traced w (map EvSet targets)).
Proof.
  induction targets as [|t targets IH]; intros ip w; cbn.
  - rewrite app_nil_r, traced_nil. by destruct ip.
  - unfold bind. cbn. rewrite IH, traced_traced. cbn.
    by rewrite <- app_assoc.
Qed.

(** ** The second half: validation, scan, wait *)

(** The world after the scan of a validated invocation: a new executor at
    the next free address, the targets loaded, the scan started and its own
    work pool waited on. *)
Lemma validate_and_scan_run (u : unsafeOptions WorkflowLoader) (store : Store)
    targets w lt x :
  engines w !! lt = Some x ->
  validate_and_scan (Some lt) u store targets w =
  if (length (store_Templates store) =? 0)%nat
     && (length (store_Workflows store) =? 0)%nat
  then Ok (Some ErrNoTemplatesAvailable) (traced w (map EvSet targets))
  else if (length targets =? 0)%nat
  then Ok (Some ErrNoTargetsAvailable) (traced w (map EvSet targets))
  else
    let lc := fresh (dom (cores w)) in
    Ok None
       {| engines := engines w; options := options w; limiters := limiters w;
          cores := <[lc := {| core_options := opts x;
                              core_executerOpts := Some (executerOpts u) |}]>
                     (cores w);
          trace := trace w ++ map EvSet targets ++
                   [EvExecuteScan (Some lc) (store_Templates store)
                      (provider_of targets) false;
                    EvWait (Some lc)] |}.
Proof.
  intros Hx. unfold validate_and_scan, bind.
  rewrite load_targets_run. cbn [Inputs app].
  destruct ((length (store_Templates store) =? 0)%nat
            && (length (store_Workflows store) =? 0)%nat); [done|].
  unfold SimpleInputProvider_Count, provider_of. cbn [Inputs].
  rewrite length_map.
  destruct targets as [|t targets]; [done|].
  cbn [length Nat.eqb].
  replace (Z.of_nat (S (length targets)) =? 0)%Z with false
    by (symmetry; apply Z.eqb_neq; lia).
  rewrite (load_engine_Some (traced w _) lt x Hx).
  cbn. rewrite lookup_insert_eq. cbn.
  rewrite insert_insert_eq.
  unfold traced. cbn. do 2 f_equal.
  by rewrite <- !app_assoc.
Qed.

(** ** What the first half leaves alone *)

Lemma call_option_cores (optfn : SDKOption) (q : ptr) w r w' :
  call_option optfn q w = Ok r w' ->
  cores w' = cores w /\ trace w' = trace w.
Proof.
  unfold call_option, bind, load_engine, load_options, store_options,
    store_engine, ret.
  intros H. repeat (case_match; simplify_eq/=); done.
Qed.

Lemma apply_options_cores optfns : forall (q : ptr) i w r w',
  apply_options q optfns i w = Ok r w' -> cores w' = cores w.
Proof.
  induction optfns as [|optfn more IH]; intros q i w r w'; cbn.
  - unfold ret. by intros [= _ <-].
  - unfold bind. cbn.
    destruct (call_option optfn q (traced w _)) as [[err|] w1|] eqn:Hcall;
      [| |done]; apply call_option_cores in Hcall as [Hcall _]; cbn in Hcall.
    + unfold ret. intros [= _ <-]. done.
    + intros H. apply IH in H. congruence.
Qed.

(** When no option function fails, each has been called once, in order. *)
Lemma apply_options_trace optfns : forall (q : ptr) i w w',
  apply_options q optfns i w = Ok None w' ->
  trace w' = trace w ++ map EvOption (seq i (length optfns)).
Proof.
  induction optfns as [|optfn more IH]; intros q i w w'; cbn.
  - unfold ret. intros [= <-]. by rewrite app_nil_r.
  - unfold bind. cbn.
    destruct (call_option optfn q (traced w _)) as [[err|] w1|] eqn:Hcall;
      [done| |done].
    apply call_option_cores in Hcall as [_ Hcall]; cbn in Hcall.
    intros H. apply IH in H. rewrite H, Hcall. by rewrite <- app_assoc.
Qed.

Lemma clone_base_cores e w (q : ptr) w' :
  clone_base e w = Ok q w' -> cores w' = cores w /\ trace w' = trace w.
Proof.
  unfold clone_base, bind, load_engine, load_options, alloc_options,
    alloc_engine.
  intros H. repeat (case_match; simplify_eq/=); done.
Qed.

Lemma createEphemeralObjects_cores (base po : ptr) w r w' :
  createEphemeralObjects base po w = Ok r w' ->
  dom (cores w) ⊆ dom (cores w') /\ trace w' = trace w.
Proof.
  unfold createEphemeralObjects, bind, load_engine, load_options,
    ratelimit_New, ratelimit_NewUnlimited, alloc_limiter, core_New,
    core_SetExecuterOptions, ret.
  intros H. repeat (case_match; simplify_eq/=); (split; [set_solver|done]).
Qed.

(** When the first half succeeds, the temporary engine is live in the world
    it leaves, every executor that existed before still does, and the calls
    made are those of the option functions and of the loaders. *)
Lemma resolve_inv e optfns w (tmpEngine : ptr)
    (u : unsafeOptions WorkflowLoader) (store : Store) w1 :
  resolve e optfns w = Ok (inr (tmpEngine, u, store)) w1 ->
  exists lt x,
    tmpEngine = Some lt /\ engines w1 !! lt = Some x /\
    dom (cores w) ⊆ dom (cores w1) /\
    trace w1 = trace w ++ map EvOption (seq 0 (length optfns)) ++
               [EvNewLoader; EvLoaderNew; EvStoreLoad].
Proof.
  unfold resolve, bind.
  destruct (clone_base e w) as [q wa|] eqn:Hclone; [|done].
  destruct (apply_options q optfns 0 wa) as [[err|] wb|] eqn:Happly;
    [done| |done].
  destruct (load_engine q wb) as [tmp wc|] eqn:Htmp; [|done].
  destruct (createEphemeralObjects (eng e) (opts tmp) wc)
    as [[u0 [err|]] wd|] eqn:Hcreate; [done| |done].
  cbn [log get].
  destruct (parsers_NewLoader _ _) as [err|wl]; [done|].
  destruct (load_engine q (traced wd _)) as [tmp' we|] eqn:Htmp'; [|done].
  destruct (load_engine (eng e) we) as [b wf|] eqn:Hb; [|done].
  destruct (loader_New _ _) as [err|store0]; [done|].
  unfold ret. intros [= <- <- <- <-].
  apply load_engine_inv in Htmp as [-> _].
  apply load_engine_inv in Htmp' as [-> (lt & -> & Hlt)].
  apply load_engine_inv in Hb as [-> _].
  apply clone_base_cores in Hclone as [Hclone Hclone'].
  pose proof (apply_options_trace _ _ _ _ _ Happly) as Happly'.
  apply apply_options_cores in Happly.
  apply createEphemeralObjects_cores in Hcreate as [Hcreate Hcreate'].
  exists lt, tmp'. cbn in *. split; [done|]. split; [done|]. split.
  - rewrite <- Hclone, <- Happly. done.
  - rewrite Hcreate', Happly', Hclone'. by rewrite <- !app_assoc.
Qed.

(** ** The whole call, once the first half has succeeded *)

Lemma ExecuteNucleiWithOpts_resolved e targets optfns w (tmpEngine : ptr)
    (u : unsafeOptions WorkflowLoader) (store : Store) w1 :
  resolve e optfns w = Ok (inr (tmpEngine, u, store)) w1 ->
  exists lt x,
    engines w1 !! lt = Some x /\
    dom (cores w) ⊆ dom (cores w1) /\
    trace w1 = trace w ++ map EvOption (seq 0 (length optfns)) ++
               [EvNewLoader; EvLoaderNew; EvStoreLoad] /\
    ExecuteNucleiWithOpts e targets optfns w =
    if (length (store_Templates store) =? 0)%nat
       && (length (store_Workflows store) =? 0)%nat
    then Ok (Some ErrNoTemplatesAvailable) (traced w1 (map EvSet targets))
    else if (length targets =? 0)%nat
    then Ok (Some ErrNoTargetsAvailable) (traced w1 (map EvSet targets))
    else
      let lc := fresh (dom (cores w1)) in
      Ok None
         {| engines := engines w1; options := options w1;
            limiters := limiters w1;
            cores := <[lc := {| core_options := opts x;
                                core_executerOpts := Some (executerOpts u) |}]>
                       (cores w1);
            trace := trace w1 ++ map EvSet targets ++
                     [EvExecuteScan (Some lc) (store_Templates store)
                        (provider_of targets) false;
                      EvWait (Some lc)] |}.
Proof.
  intros Hres.
  destruct (resolve_inv _ _ _ _ _ _ _ Hres) as (lt & x & -> & Hx & Hc & Ht).
  exists lt, x. repeat (split; [done|]).
  rewrite ExecuteNucleiWithOpts_split, Hres.
  by apply validate_and_scan_run.
Qed.

Lemma nonempty_length {A} (xs : list A) : xs <> [] -> (length xs =? 0)%nat = false.
Proof. by destruct xs. Qed.

Lemma some_resolved (ts ws : list Template) :
  ts <> [] \/ ws <> [] ->
  (length ts =? 0)%nat && (length ws =? 0)%nat = false.
Proof. destruct ts, ws; cbn; intuition congruence. Qed.

(** C3, as amended.  When the first half of the call has succeeded and the
    targets are empty, the call returns [ErrNoTargetsAvailable] if at least one
    template or workflow was resolved; if none was, the check on the templates
    comes first and the call returns [ErrNoTemplatesAvailable]. *)
Theorem ExecuteNucleiWithOpts_empty_targets e optfns w (tmpEngine : ptr)
    (u : unsafeOptions WorkflowLoader) (store : Store) w1 :
  resolve e optfns w = Ok (inr (tmpEngine, u, store)) w1 ->
  (store_Templates store <> [] \/ store_Workflows store <> [] ->
   ExecuteNucleiWithOpts e [] optfns w = Ok (Some ErrNoTargetsAvailable) w1) /\
  (store_Templates store = [] -> store_Workflows store = [] ->
   ExecuteNucleiWithOpts e [] optfns w = Ok (Some ErrNoTemplatesAvailable) w1).
Proof.
  intros Hres.
  destruct (ExecuteNucleiWithOpts_resolved e [] _ _ _ _ _ _ Hres)
    as (lt & x & _ & _ & _ & ->).
  cbn [map length Nat.eqb]. rewrite traced_nil. split.
  - intros Hsome. by rewrite (some_resolved _ _ Hsome).
  - by intros -> ->.
Qed.

(** C4.  When the first half of the call has succeeded and there are
    targets, the call returns [ErrNoTemplatesAvailable] exactly when no
    template and no workflow was resolved; with workflows only it returns
    nil. *)
Theorem ExecuteNucleiWithOpts_no_templates e targets optfns w (tmpEngine : ptr)
    (u : unsafeOptions WorkflowLoader) (store : Store) w1 :
  resolve e optfns w = Ok (inr (tmpEngine, u, store)) w1 ->
  targets <> [] ->
  exists r w',
    ExecuteNucleiWithOpts e targets optfns w = Ok r w' /\
    (r = Some ErrNoTemplatesAvailable <->
     store_Templates store = [] /\ store_Workflows store = []) /\
    (store_Templates store = [] -> store_Workflows store <> [] -> r = None).
Proof.
  intros Hres Htargets.
  destruct (ExecuteNucleiWithOpts_resolved e targets _ _ _ _ _ _ Hres)
    as (lt & x & _ & _ & _ & ->).
  rewrite (nonempty_length _ Htargets).
  destruct (store_Templates store) as [|t ts], (store_Workflows store) as [|v ws];
    cbn; eexists _, _; (split; [reflexivity|]); intuition congruence.
Qed.

(** C6.  A call that passes every setup step returns nil, whatever the
    executor's scan returns. *)
Theorem ExecuteNucleiWithOpts_returns_nil e targets optfns w (tmpEngine : ptr)
    (u : unsafeOptions WorkflowLoader) (store : Store) w1 :
  resolve e optfns w = Ok (inr (tmpEngine, u, store)) w1 ->
  store_Templates store <> [] \/ store_Workflows store <> [] ->
  targets <> [] ->
  exists w', ExecuteNucleiWithOpts e targets optfns w = Ok None w'.
Proof.
  intros Hres Hsome Htargets.
  destruct (ExecuteNucleiWithOpts_resolved e targets _ _ _ _ _ _ Hres)
    as (lt & x & _ & _ & _ & ->).
  rewrite (some_resolved _ _ Hsome), (nonempty_length _ Htargets).
  eauto.
Qed.

(** C7.  A call that starts the executor builds it anew (its address was
    free when the call began), starts the scan on it, waits on the work pool
    of that same executor, and returns: the wait is the last call made. *)
Theorem ExecuteNucleiWithOpts_waits_own_pool e targets optfns w
    (tmpEngine : ptr) (u : unsafeOptions WorkflowLoader) (store : Store) w1 :
  resolve e optfns w = Ok (inr (tmpEngine, u, store)) w1 ->
  store_Templates store <> [] \/ store_Workflows store <> [] ->
  targets <> [] ->
  exists lc w' before,
    ExecuteNucleiWithOpts e targets optfns w = Ok None w' /\
    (lc ∉ dom (cores w)) /\ (lc ∉ dom (cores w1)) /\ (lc ∈ dom (cores w')) /\
    trace w' = trace w ++ before ++
               [EvExecuteScan (Some lc) (store_Templates store)
                  (provider_of targets) false;
                EvWait (Some lc)] /\
    (forall q, EvWait q ∉ before).
Proof.
  intros Hres Hsome Htargets.
  destruct (ExecuteNucleiWithOpts_resolved e targets _ _ _ _ _ _ Hres)
    as (lt & x & _ & Hcores & Htrace & ->).
  rewrite (some_resolved _ _ Hsome), (nonempty_length _ Htargets).
  pose proof (is_fresh (dom (cores w1))) as Hfresh.
  eexists (fresh (dom (cores w1))), _,
    (map EvOption (seq 0 (length optfns)) ++
     [EvNewLoader; EvLoaderNew; EvStoreLoad] ++ map EvSet targets).
  split; [reflexivity|]. cbn [cores trace].
  split. { intros Hin. by apply Hfresh, Hcores. }
  split; [done|]. split.
  { rewrite dom_insert_L. apply elem_of_union_l. by apply elem_of_singleton. }
  split.
  { rewrite Htrace. by rewrite <- !app_assoc. }
  intros q. rewrite !elem_of_app, !list_elem_of_In, !in_map_iff.
  intros [(i & Hi & _)|[Hin|(t & Ht & _)]]; try discriminate.
  cbn in Hin. intuition discriminate.
Qed.

(** C10.  A call that starts the executor makes one scan call: with the
    resolved templates, the provider holding the targets, and [false].  The
    workflows do not reach it; with no template resolved (and some workflow)
    the call passes validation and hands the executor an empty list, which
    makes no work item. *)
Theorem ExecuteNucleiWithOpts_scans_templates_only e targets optfns w
    (tmpEngine : ptr) (u : unsafeOptions WorkflowLoader) (store : Store) w1 :
  resolve e optfns w = Ok (inr (tmpEngine, u, store)) w1 ->
  store_Templates store <> [] \/ store_Workflows store <> [] ->
  targets <> [] ->
  exists w' evs scan,
    ExecuteNucleiWithOpts e targets optfns w = Ok None w' /\
    trace w' = trace w ++ evs /\
    (scan ∈ evs) /\
    (forall q ts ip nc, EvExecuteScan q ts ip nc ∈ evs ->
                        EvExecuteScan q ts ip nc = scan) /\
    (exists q, scan = EvExecuteScan q (store_Templates store)
                        (provider_of targets) false) /\
    (store_Templates store = [] ->
     work_items (store_Templates store) (provider_of targets) = []).
Proof.
  intros Hres Hsome Htargets.
  destruct (ExecuteNucleiWithOpts_resolved e targets _ _ _ _ _ _ Hres)
    as (lt & x & _ & _ & Htrace & ->).
  rewrite (some_resolved _ _ Hsome), (nonempty_length _ Htargets).
  set (lc := fresh (dom (cores w1))).
  eexists _,
    (map EvOption (seq 0 (length optfns)) ++
     [EvNewLoader; EvLoaderNew; EvStoreLoad] ++ map EvSet targets ++
     [EvExecuteScan (Some lc) (store_Templates store) (provider_of targets) false;
      EvWait (Some lc)]),
    (EvExecuteScan (Some lc) (store_Templates store) (provider_of targets) false).
  split; [reflexivity|]. cbn [trace].
  split. { rewrite Htrace. by rewrite <- !app_assoc. }
  split. { rewrite !elem_of_app. do 3 right. apply list_elem_of_here. }
  split.
  { intros q ts ip nc.
    rewrite !elem_of_app, !list_elem_of_In, !in_map_iff.
    intros [(i & Hi & _)|[Hin|[(t & Ht & _)|Hin]]]; try discriminate;
      cbn in Hin; intuition (try discriminate); done. }
  split; [eauto|].
  by intros ->.
Qed.

(** ** Running the option functions *)

Lemma clone_base_run e w lb b pb bo :
  serves e w lb b pb bo ->
  clone_base e w =
  Ok (Some (fresh (dom (engines w))))
     {| engines := <[fresh (dom (engines w)) :=
                       {| opts := Some (fresh (dom (options w)));
                          fields := zero_fields threadSafe |}]> (engines w);
        options := <[fresh (dom (options w)) := bo]> (options w);
        limiters := limiters w; cores := cores w; trace := trace w |}.
Proof.
  intros (He & Hb & Hpb & Hbo). unfold clone_base, bind.
  rewrite He, (load_engine_Some _ _ _ Hb), Hpb, (load_options_Some _ _ _ Hbo).
  reflexivity.
Qed.

Lemma call_option_run (optfn : SDKOption) w l x p o f' o' err :
  engines w !! l = Some x -> opts x = Some p -> options w !! p = Some o ->
  optfn (fields x) o = (f', o', err) ->
  call_option optfn (Some l) w =
  Ok err {| engines := <[l := {| opts := Some p; fields := f' |}]> (engines w);
            options := <[p := o']> (options w);
            limiters := limiters w; cores := cores w; trace := trace w |}.
Proof.
  intros Hx Hp Ho Hf. unfold call_option, bind.
  rewrite (load_engine_Some _ _ _ Hx), Hp, (load_options_Some _ _ _ Ho), Hf.
  reflexivity.
Qed.

Lemma apply_options_run optfns : forall w l x p o i f' o' err,
  engines w !! l = Some x -> opts x = Some p -> options w !! p = Some o ->
  fold_options optfns (fields x) o = (f', o', err) ->
  apply_options (Some l) optfns i w =
  Ok err {| engines := <[l := {| opts := Some p; fields := f' |}]> (engines w);
            options := <[p := o']> (options w);
            limiters := limiters w; cores := cores w;
            trace := trace w ++ map EvOption (seq i (calls optfns (fields x) o)) |}.
Proof.
  induction optfns as [|optfn more IH]; intros w l x p o i f' o' err Hx Hp Ho; cbn.
  - intros [= <- <- <-]. unfold ret. f_equal.
    destruct w as [en op li co tr]; cbn in *.
    rewrite app_nil_r, insert_id, insert_id; [done|done|].
    rewrite Hx. f_equal. destruct x; cbn in *; congruence.
  - destruct (optfn (fields x) o) as [[f1 o1] err1] eqn:Hf.
    unfold bind. cbn [log].
    rewrite (call_option_run optfn (traced w [EvOption i]) l x p o f1 o1 err1)
      by done.
    destruct err1 as [e1|].
    + intros [= <- <- <-]. unfold ret, traced. cbn. done.
    + intros Hfold.
      erewrite IH; cbn; [| by rewrite lookup_insert_eq | done
                        | by rewrite lookup_insert_eq | exact Hfold ].
      rewrite !insert_insert_eq. by rewrite <- app_assoc.
Qed.

Lemma fold_options_first_error done : forall (optfn : SDKOption) more f0 o0 f o f' o' err,
  fold_options done f0 o0 = (f, o, None) ->
  optfn f o = (f', o', Some err) ->
  fold_options (done ++ optfn :: more) f0 o0 = (f', o', Some err) /\
  calls (done ++ optfn :: more) f0 o0 = S (length done).
Proof.
  induction done as [|g done IH]; intros optfn more f0 o0 f o f' o' err; cbn.
  - intros [= <- <-] ->. done.
  - destruct (g f0 o0) as [[f1 o1] [e1|]]; [done|].
    intros Hdone Hf.
    destruct (IH optfn more _ _ _ _ _ _ _ Hdone Hf) as [-> ->]. done.
Qed.

(** C5.  When an option function returns an error (those before it having
    returned nil), [ExecuteNucleiWithOpts] returns that error, and so does the
    constructor; the calls made are those of the option functions up to the
    failing one: no later option function, no loader, no load, no target, no
    scan, no [init]; no executor and no limiter is built. *)
Theorem option_error_aborts done (optfn : SDKOption) more :
  (forall e targets w lb b pb bo f o f' o' err,
     serves e w lb b pb bo ->
     fold_options done (zero_fields threadSafe) bo = (f, o, None) ->
     optfn f o = (f', o', Some err) ->
     exists w',
       ExecuteNucleiWithOpts e targets (done ++ optfn :: more) w
       = Ok (Some err) w' /\
       trace w' = trace w ++ map EvOption (seq 0 (S (length done))) /\
       cores w' = cores w /\ limiters w' = limiters w) /\
  (forall w f o f' o' err,
     fold_options done (zero_fields threadSafe) DefaultOptions = (f, o, None) ->
     optfn f o = (f', o', Some err) ->
     exists w',
       NewThreadSafeNucleiEngine (done ++ optfn :: more) w
       = Ok (None, Some err) w' /\
       trace w' = trace w ++ map EvOption (seq 0 (S (length done))) /\
       cores w' = cores w /\ limiters w' = limiters w).
Proof.
  split.
  - intros e targets w lb b pb bo f o f' o' err Hserves Hdone Hf.
    destruct (fold_options_first_error done optfn more _ _ _ _ _ _ _ Hdone Hf)
      as [Hfold Hcalls].
    unfold ExecuteNucleiWithOpts, bind.
    rewrite (clone_base_run _ _ _ _ _ _ Hserves).
    erewrite apply_options_run; cbn;
      [| by rewrite lookup_insert_eq | done | by rewrite lookup_insert_eq
       | exact Hfold ].
    eexists. split; [reflexivity|]. cbn. by rewrite Hcalls.
  - intros w f o f' o' err Hdone Hf.
    destruct (fold_options_first_error done optfn more _ _ _ _ _ _ _ Hdone Hf)
      as [Hfold Hcalls].
    unfold NewThreadSafeNucleiEngine, bind. cbn [alloc_options alloc_engine].
    erewrite apply_options_run; cbn;
      [| by rewrite lookup_insert_eq | done | by rewrite lookup_insert_eq
       | exact Hfold ].
    eexists. split; [reflexivity|]. cbn. by rewrite Hcalls.
Qed.

(** ** Isolation of concurrent invocations *)

Lemma fold_options_snoc done : forall (optfn : SDKOption) f0 o0 f o f' o' err,
  fold_options done f0 o0 = (f, o, None) ->
  optfn f o = (f', o', err) ->
  fold_options (done ++ [optfn]) f0 o0 = (f', o', err).
Proof.
  induction done as [|g done IH]; intros optfn f0 o0 f o f' o' err; cbn.
  - intros [= <- <-] ->. by destruct err.
  - destruct (g f0 o0) as [[f1 o1] [e1|]]; [done|]. apply IH.
Qed.

Lemma apart_sym (s1 s2 : invocation OptionsRest) w :
  apart s1 s2 w -> apart s2 s1 w.
Proof.
  destruct s1 as [|[l1|] ? ?|], s2 as [|[l2|] ? ?|]; cbn; try done.
  intros [Hne Hopts]. split; [done|].
  intros x2 x1 H2 H1 Heq. by apply (Hopts x1 x2).
Qed.

(** An invocation keeps seeing its own options in any world that agrees
    with the present one on its temporary engine and its options object. *)
Lemma isolated_agree lb pb bo optfns (t : invocation OptionsRest) w w' :
  isolated lb pb bo optfns t w ->
  (forall l x p, engines w !! l = Some x -> opts x = Some p ->
                 (exists i more, t = Configuring (Some l) i more) ->
                 engines w' !! l = Some x /\ options w' !! p = options w !! p) ->
  isolated lb pb bo optfns t w'.
Proof.
  destruct t as [fs|q i more|err]; cbn; [done| |done].
  intros (l & p & x & o & done & -> & Hl & Hx & Hp & Hpb & Ho & Hsplit & Hlen & Hfold)
    Hagree.
  destruct (Hagree l x p Hx Hp) as [Hx' Ho']; [eauto|].
  exists l, p, x, o, done. rewrite Hx', Ho'. done.
Qed.

(** One step of an invocation keeps the shared base as it is, keeps both
    invocations isolated, and keeps them apart. *)
Lemma step_isolated e w lb b pb bo optfns_s optfns_t
    (s t : invocation OptionsRest) :
  serves e w lb b pb bo ->
  isolated lb pb bo optfns_s s w ->
  isolated lb pb bo optfns_t t w ->
  apart s t w ->
  exists s' w',
    step e s w = Ok s' w' /\
    serves e w' lb b pb bo /\
    isolated lb pb bo optfns_s s' w' /\
    isolated lb pb bo optfns_t t w' /\
    apart s' t w'.
Proof.
  intros Hserves Hs Ht Hapart.
  pose proof Hserves as (He & Hb & Hpb & Hbo).
  destruct s as [fs|q i [|optfn more]|err].
  - (* the clone *)
    cbn in Hs. subst fs. cbn [step]. unfold bind.
    rewrite (clone_base_run _ _ _ _ _ _ Hserves). cbn.
    pose proof (is_fresh (dom (engines w))) as Hfl.
    pose proof (is_fresh (dom (options w))) as Hfp.
    set (lt := fresh (dom (engines w))) in *.
    set (pt := fresh (dom (options w))) in *.
    assert (Hlive : forall l x, engines w !! l = Some x -> lt <> l).
    { intros l x Hx ->. apply Hfl, elem_of_dom. eauto. }
    assert (Hlive' : forall p o, options w !! p = Some o -> pt <> p).
    { intros p o Ho ->. apply Hfp, elem_of_dom. eauto. }
    eexists _, _. split; [reflexivity|]. split; [|split; [|split]].
    + repeat split; cbn; try done.
      * rewrite lookup_insert_ne; [done|]. by eapply Hlive.
      * rewrite lookup_insert_ne; [done|]. by eapply Hlive'.
    + cbn. exists lt, pt, {| opts := Some pt; fields := zero_fields threadSafe |},
        bo, []. cbn. rewrite !lookup_insert_eq.
      repeat split; try done.
      * by eapply Hlive.
      * by eapply Hlive'.
    + apply (isolated_agree _ _ _ _ _ _ _ Ht). cbn.
      intros l x p Hx Hp (i & more & ->). cbn in Ht.
      destruct Ht as (l' & p' & x' & o' & done & [= <-] & _ & Hx' & Hp' & _ & Ho' & _).
      assert (x' = x) as -> by congruence.
      assert (p' = p) as -> by congruence.
      rewrite !lookup_insert_ne; [done| |]; [by eapply Hlive'|by eapply Hlive].
    + destruct t as [|[l2|] i2 more2|]; cbn; try done.
      cbn in Ht.
      destruct Ht as (l' & p' & x' & o' & done & [= <-] & _ & Hx' & Hp' & _ & Ho' & _).
      split; [by eapply Hlive|].
      intros x1 x2. rewrite lookup_insert_eq, lookup_insert_ne by (by eapply Hlive).
      intros [= <-] Hx2. cbn. assert (x2 = x') as -> by congruence.
      rewrite Hp'. intros Heq. injection Heq as Heq. by apply (Hlive' _ _ Ho').
  - (* nothing left to apply *)
    cbn [step]. unfold ret. eauto 10.
  - (* one option function *)
    cbn in Hs.
    destruct Hs as (l & p & x & o & done & -> & Hl & Hx & Hp & Hppb & Ho
                    & Hsplit & Hlen & Hfold).
    destruct (optfn (fields x) o) as [[f' o'] err] eqn:Hf.
    cbn [step]. unfold bind. cbn [log].
    rewrite (call_option_run optfn (traced w [EvOption i]) l x p o f' o' err)
      by done.
    assert (Hfold' := fold_options_snoc _ _ _ _ _ _ _ _ _ Hfold Hf).
    assert (Hsplit' : optfns_s = (done ++ [optfn]) ++ more)
      by (by rewrite <- app_assoc).
    assert (Ht' : isolated lb pb bo optfns_t t
              {| engines := <[l := {| opts := Some p; fields := f' |}]> (engines w);
                 options := <[p := o']> (options w);
                 limiters := limiters w; cores := cores w;
                 trace := trace w ++ [EvOption i] |}).
    { apply (isolated_agree _ _ _ _ _ _ _ Ht). cbn.
      intros l2 x2 p2 Hx2 Hp2 (i2 & more2 & ->). cbn in Hapart.
      destruct Hapart as [Hne Hopts].
      specialize (Hopts x x2 Hx Hx2). rewrite Hp, Hp2 in Hopts.
      rewrite !lookup_insert_ne; [done| |done]. congruence. }
    assert (Hserves' : serves e
              {| engines := <[l := {| opts := Some p; fields := f' |}]> (engines w);
                 options := <[p := o']> (options w);
                 limiters := limiters w; cores := cores w;
                 trace := trace w ++ [EvOption i] |} lb b pb bo).
    { repeat split; cbn; try done; by rewrite lookup_insert_ne. }
    destruct err as [err|]; cbn.
    + eexists _, _. split; [reflexivity|]. split; [done|].
      split; [|split; [done|by destruct t as [|[?|] ? ?|]]].
      cbn. exists (done ++ [optfn]), more, f', o'. done.
    + eexists _, _. split; [reflexivity|]. split; [done|].
      split; [|split; [done|]].
      * cbn. exists l, p, {| opts := Some p; fields := f' |}, o', (done ++ [optfn]).
        rewrite !lookup_insert_eq, length_app. cbn.
        repeat split; try done. lia.
      * destruct t as [|[l2|] i2 more2|]; cbn; try done.
        cbn in Hapart. destruct Hapart as [Hne Hopts].
        split; [done|]. intros x1 x2.
        rewrite lookup_insert_eq, lookup_insert_ne by done.
        intros [= <-] Hx2. cbn. rewrite <- Hp. by apply Hopts.
  - (* returned *)
    cbn [step]. unfold ret. eauto 10.
Qed.

Lemma interleave_isolated e lb b pb bo optfns1 optfns2 schedule :
  forall (s1 s2 : invocation OptionsRest) w,
    serves e w lb b pb bo ->
    isolated lb pb bo optfns1 s1 w ->
    isolated lb pb bo optfns2 s2 w ->
    apart s1 s2 w ->
    exists s1' s2' w',
      interleave e schedule s1 s2 w = Ok (s1', s2') w' /\
      serves e w' lb b pb bo /\
      isolated lb pb bo optfns1 s1' w' /\
      isolated lb pb bo optfns2 s2' w'.
Proof.
  induction schedule as [|[|] schedule IH]; intros s1 s2 w Hserves H1 H2 Hapart.
  - cbn. unfold ret. eauto 10.
  - destruct (step_isolated _ _ _ _ _ _ _ _ _ _ Hserves H1 H2 Hapart)
      as (s1' & w1 & Hstep & Hserves' & H1' & H2' & Hapart').
    cbn. unfold bind. rewrite Hstep. by apply IH.
  - apply apart_sym in Hapart.
    destruct (step_isolated _ _ _ _ _ _ _ _ _ _ Hserves H2 H1 Hapart)
      as (s2' & w1 & Hstep & Hserves' & H2' & H1' & Hapart').
    cbn. unfold bind. rewrite Hstep. apply IH; try done. by apply apart_sym.
Qed.

(** The steps of one invocation, run without interruption, are the first two
    statements of [ExecuteNucleiWithOpts]. *)
Lemma steps_Returned e n (err : error) w :
  steps e n (Returned err : invocation OptionsRest) w = Ok (Returned err) w.
Proof. induction n as [|n IH]; [done|]. cbn. unfold bind. cbn. apply IH. Qed.

Lemma steps_apply_options e optfns : forall (q : ptr) i w,
  steps e (length optfns) (Configuring q i optfns) w =
  match apply_options q optfns i w with
  | Ok None w' => Ok (Configuring q (i + length optfns) []) w'
  | Ok (Some err) w' => Ok (Returned err) w'
  | Panic msg => Panic msg
  end.
Proof.
  induction optfns as [|optfn more IH]; intros q i w; cbn.
  - unfold ret. by rewrite Nat.add_0_r.
  - unfold bind. cbn [log].
    destruct (call_option optfn q _) as [[err|] w1|]; cbn; [|  |done].
    + apply steps_Returned.
    + rewrite IH. by rewrite Nat.add_succ_r.
Qed.

Lemma steps_configure e optfns w :
  steps e (S (length optfns)) (Entered optfns) w =
  match clone_base e w with
  | Ok tmpEngine w1 =>
      match apply_options tmpEngine optfns 0 w1 with
      | Ok None w2 => Ok (Configuring tmpEngine (length optfns) []) w2
      | Ok (Some err) w2 => Ok (Returned err) w2
      | Panic msg => Panic msg
      end
  | Panic msg => Panic msg
  end.
Proof.
  cbn [steps step]. unfold bind.
  destruct (clone_base e w) as [q w1|]; [|done].
  cbn. apply steps_apply_options.
Qed.

(** ** createEphemeralObjects, continued *)

(** C2.  The limiter of the ephemeral objects is a new one, not one that
    existed before the call (so not the shared engine's), chosen from the
    options alone: a positive per-minute quota gives a limiter of that quota
    per minute; otherwise a positive per-second quota gives one of that quota
    per second; otherwise the limiter is unlimited.  The limiters that existed
    are left as they were. *)
Theorem createEphemeralObjects_rate_limiter w lb b po o :
  engines w !! lb = Some b ->
  options w !! po = Some o ->
  is_int (RateLimitMinute o) ->
  is_int (RateLimit o) ->
  exists u w' l,
    createEphemeralObjects (Some lb) (Some po) w = Ok (u, None) w' /\
    RateLimiter (executerOpts u) = Some l /\
    (l ∉ dom (limiters w)) /\
    ((forall l0, rateLimiter (fields b) = Some l0 -> l0 ∈ dom (limiters w)) ->
     RateLimiter (executerOpts u) <> rateLimiter (fields b)) /\
    (forall l0, l0 ∈ dom (limiters w) -> limiters w' !! l0 = limiters w !! l0) /\
    ((0 < RateLimitMinute o)%Z ->
     limiters w' !! l = Some (Limited (RateLimitMinute o) time_Minute)) /\
    ((RateLimitMinute o <= 0)%Z -> (0 < RateLimit o)%Z ->
     limiters w' !! l = Some (Limited (RateLimit o) time_Second)) /\
    ((RateLimitMinute o <= 0)%Z -> (RateLimit o <= 0)%Z ->
     limiters w' !! l = Some Unlimited).
Proof.
  intros Hb Ho Hm Hs.
  destruct (createEphemeralObjects_run _ _ _ _ _ Hb Ho)
    as (u & w' & Hrun & Hl & Hlim & _).
  pose proof (is_fresh (dom (limiters w))) as Hfresh.
  exists u, w', (fresh (dom (limiters w))).
  split; [done|]. split; [done|]. split; [done|]. split.
  { intros Hlive Heq. rewrite Hl in Heq. symmetry in Heq.
    by apply Hfresh, Hlive. }
  split.
  { intros l0 Hl0. rewrite Hlim, lookup_insert_ne; [done|]. by intros <-. }
  rewrite Hlim, lookup_insert_eq.
  split; [|split].
  - intros Hpos. apply Z.ltb_lt in Hpos as Hpos'. rewrite Hpos'.
    by rewrite uint_small.
  - intros Hle Hpos.
    replace (0 <? RateLimitMinute o)%Z with false
      by (symmetry; apply Z.ltb_ge; lia).
    apply Z.ltb_lt in Hpos as Hpos'. rewrite Hpos'. by rewrite uint_small.
  - intros Hle Hle'.
    replace (0 <? RateLimitMinute o)%Z with false
      by (symmetry; apply Z.ltb_ge; lia).
    replace (0 <? RateLimit o)%Z with false
      by (symmetry; apply Z.ltb_ge; lia).
    done.
Qed.

(** C9.  The builder never returns an error, whatever it is called on, so
    the check on its error in [ExecuteNucleiWithOpts] never fires; on a live
    engine and a live options object it returns its objects and nil. *)
Theorem createEphemeralObjects_never_fails :
  (forall (base po : ptr) w u err w',
     createEphemeralObjects base po w <> Ok (u, Some err) w') /\
  (forall w lb b po o,
     engines w !! lb = Some b ->
     options w !! po = Some o ->
     exists u w', createEphemeralObjects (Some lb) (Some po) w = Ok (u, None) w').
Proof.
  split.
  - apply createEphemeralObjects_no_error.
  - intros w lb b po o Hb Ho.
    destruct (createEphemeralObjects_run _ _ _ _ _ Hb Ho) as (u & w' & Hrun & _).
    eauto.
Qed.

(** ** The input provider *)

(** C8, as amended.  The provider holds every target it is given, in order
    and as given: after the loop its count is the number of targets,
    duplicates included. *)
Theorem load_targets_keeps_every_target targets w :
  exists ip w',
    load_targets targets {| Inputs := [] |} w = Ok ip w' /\
    Inputs ip = map (fun t => {| Input := t |}) targets /\
    SimpleInputProvider_Count ip = Z.of_nat (length targets).
Proof.
  rewrite load_targets_run. eexists _, _. split; [reflexivity|].
  unfold SimpleInputProvider_Count. cbn. by rewrite length_map.
Qed.

(** ** The call always returns, and leaves the shared base alone *)

Lemma serves_same e w w' lb b pb bo :
  engines w' = engines w -> options w' = options w ->
  serves e w lb b pb bo -> serves e w' lb b pb bo.
Proof. unfold serves. by intros -> ->. Qed.

(** On a facade that serves from a live engine, the first half of the call
    does not panic, and the engine and its options are as they were. *)
Lemma resolve_keeps_base e optfns w lb b pb bo :
  serves e w lb b pb bo ->
  exists r w1, resolve e optfns w = Ok r w1 /\ serves e w1 lb b pb bo.
Proof.
  intros Hserves. pose proof Hserves as (He & Hb & Hpb & Hbo).
  pose proof (is_fresh (dom (engines w))) as Hfl.
  pose proof (is_fresh (dom (options w))) as Hfp.
  assert (Hne : fresh (dom (engines w)) <> lb).
  { intros Heq. apply Hfl. rewrite Heq. apply elem_of_dom. eauto. }
  assert (Hne' : fresh (dom (options w)) <> pb).
  { intros Heq. apply Hfp. rewrite Heq. apply elem_of_dom. eauto. }
  unfold resolve, bind.
  rewrite (clone_base_run _ _ _ _ _ _ Hserves).
  set (lt := fresh (dom (engines w))) in *.
  set (pt := fresh (dom (options w))) in *.
  cbv beta iota.
  match goal with
  | |- context [apply_options _ _ _ ?w0] => remember w0 as w1 eqn:Hw1
  end.
  destruct (fold_options optfns (zero_fields threadSafe) bo)
    as [[f' o'] err] eqn:Hfold.
  set (x1 := {| opts := Some pt; fields := zero_fields threadSafe |}).
  set (w2 := {| engines := <[lt := {| opts := Some pt; fields := f' |}]>
                             (engines w1);
                options := <[pt := o']> (options w1);
                limiters := limiters w1; cores := cores w1;
                trace := trace w1 ++
                         map EvOption (seq 0 (calls optfns (fields x1) bo)) |}).
  assert (Happly : apply_options (Some lt) optfns 0 w1 = Ok err w2).
  { apply apply_options_run; subst w1; cbn; by rewrite ?lookup_insert_eq. }
  rewrite Happly. clear Happly.
  assert (Hlt2 : engines w2 !! lt = Some {| opts := Some pt; fields := f' |})
    by (subst w2; cbn; by rewrite lookup_insert_eq).
  assert (Hpt2 : options w2 !! pt = Some o')
    by (subst w2; cbn; by rewrite lookup_insert_eq).
  assert (Hb2 : engines w2 !! lb = Some b)
    by (subst w2 w1; cbn; by rewrite !lookup_insert_ne).
  assert (Hserves2 : serves e w2 lb b pb bo).
  { repeat split; try done. subst w2 w1; cbn. by rewrite !lookup_insert_ne. }
  clearbody w2. clear Hw1.
  destruct err as [err|]; [unfold ret; eauto|].
  rewrite (load_engine_Some _ _ _ Hlt2). cbn [opts]. rewrite He.
  destruct (createEphemeralObjects_run w2 lb b pt o' Hb2 Hpt2)
    as (u & w4 & -> & _ & _ & Heng & Hopt & _).
  assert (Hserves4 : forall evs, serves e (traced w4 evs) lb b pb bo).
  { intros evs. by apply (serves_same e w2). }
  cbn [log get].
  destruct (parsers_NewLoader _ _) as [err|wl]; [unfold ret; eauto|].
  rewrite (load_engine_Some (traced w4 _) lt {| opts := Some pt; fields := f' |})
    by (cbn; by rewrite Heng).
  rewrite (load_engine_Some (traced w4 _) lb b) by (cbn; by rewrite Heng).
  destruct (loader_New _ _) as [err|store0]; unfold ret;
    eexists _, _; (split; [reflexivity|]); rewrite ?traced_traced; apply Hserves4.
Qed.

Lemma ExecuteNucleiWithOpts_keeps_base e targets optfns w lb b pb bo :
  serves e w lb b pb bo ->
  exists r w',
    ExecuteNucleiWithOpts e targets optfns w = Ok r w' /\
    serves e w' lb b pb bo.
Proof.
  intros Hserves.
  destruct (resolve_keeps_base e optfns _ _ _ _ _ Hserves)
    as ([err|[[q u] store]] & w1 & Hres & Hserves1).
  - rewrite ExecuteNucleiWithOpts_split, Hres. eauto.
  - destruct (ExecuteNucleiWithOpts_resolved e targets _ _ _ _ _ _ Hres)
      as (lt & x & _ & _ & _ & ->).
    repeat case_match; eexists _, _; (split; [reflexivity|]);
      by apply (serves_same e w1).
Qed.

(** C1.  Each invocation clones the base options into an object of its own
    before it applies its option functions.  A call leaves the shared engine
    and its options as they were.  Whatever the interleaving of two
    invocations on one facade, the shared engine and its options stay as they
    were, and each invocation's options are what its own option functions make
    of the base value: the other invocation's functions have no part in
    them. *)
Theorem ExecuteNucleiWithOpts_isolation e w lb b pb bo :
  serves e w lb b pb bo ->
  (forall targets optfns,
     exists r w',
       ExecuteNucleiWithOpts e targets optfns w = Ok r w' /\
       serves e w' lb b pb bo) /\
  (forall optfns1 optfns2 (schedule : list bool),
     exists s1 s2 w',
       interleave e schedule (Entered optfns1) (Entered optfns2) w
       = Ok (s1, s2) w' /\
       serves e w' lb b pb bo /\
       isolated lb pb bo optfns1 s1 w' /\
       isolated lb pb bo optfns2 s2 w').
Proof.
  intros Hserves. split.
  - intros targets optfns. by apply ExecuteNucleiWithOpts_keeps_base.
  - intros optfns1 optfns2 schedule. by apply interleave_isolated.
Qed.

End Properties.

(** * Examples *)

(** Two invocations with different quotas, interleaved statement by
    statement: each sees its own quota, the base keeps its own. *)
Example isolation_two_quotas :
  match interleave demo_facade [true; false; false; true]
          (Entered [WithRateLimit 10 0]) (Entered [WithRateLimit 0 600])
          demo_world with
  | Ok (Configuring (Some l1) _ _, Configuring (Some l2) _ _) w' =>
      (x1 ← engines w' !! l1; p1 ← opts x1; options w' !! p1,
       x2 ← engines w' !! l2; p2 ← opts x2; options w' !! p2,
       options w' !! 1%positive)
  | _ => (None, None, None)
  end
  = (Some {| RateLimit := 10; RateLimitMinute := 0; rest := tt |},
     Some {| RateLimit := 0; RateLimitMinute := 600; rest := tt |},
     Some demo_options).
Proof. vm_compute. reflexivity. Qed.

Lemma ExecuteNucleiWithOpts_isolation_witness :
  serves demo_facade demo_world 1%positive demo_base 1%positive demo_options /\
  (exists r w',
     ExecuteNucleiWithOpts (P := demo_packages ["cve.yaml"] []) demo_facade
       ["example.com"] [WithRateLimit 10 0] demo_world = Ok r w' /\
     serves demo_facade w' 1%positive demo_base 1%positive demo_options) /\
  exists s1 s2 w',
    interleave demo_facade [true; false; false; true]
      (Entered [WithRateLimit 10 0]) (Entered [WithRateLimit 0 600]) demo_world
    = Ok (s1, s2) w' /\
    serves demo_facade w' 1%positive demo_base 1%positive demo_options /\
    isolated 1%positive 1%positive demo_options [WithRateLimit 10 0] s1 w' /\
    isolated 1%positive 1%positive demo_options [WithRateLimit 0 600] s2 w'.
Proof.
  assert (H : serves demo_facade demo_world 1%positive demo_base 1%positive
                demo_options)
    by (repeat split; reflexivity).
  destruct (ExecuteNucleiWithOpts_isolation (P := demo_packages ["cve.yaml"] [])
              demo_facade demo_world 1%positive demo_base 1%positive
              demo_options H) as [Hcall Hboth].
  split; [exact H|]. split.
  - exact (Hcall ["example.com"] [WithRateLimit 10 0]).
  - exact (Hboth [WithRateLimit 10 0] [WithRateLimit 0 600]
             [true; false; false; true]).
Defined.

Lemma createEphemeralObjects_rate_limiter_witness :
  exists u w' l,
    createEphemeralObjects (Some 1%positive) (Some 1%positive) demo_world
    = Ok (u, None) w' /\
    RateLimiter (executerOpts u) = Some l /\
    limiters w' !! l = Some (Limited 150 time_Second).
Proof.
  destruct (createEphemeralObjects_rate_limiter demo_world 1%positive demo_base 1%positive
              demo_options)
    as (u & w' & l & Hrun & Hl & _ & _ & _ & _ & Hsecond & _);
    [reflexivity | reflexivity | by vm_compute | by vm_compute |].
  exists u, w', l. split; [exact Hrun|]. split; [exact Hl|].
  apply Hsecond; cbn; lia.
Defined.

(** One template resolved, no target: the call returns
    [ErrNoTargetsAvailable]. *)
Lemma ExecuteNucleiWithOpts_empty_targets_witness :
  returned (ExecuteNucleiWithOpts (P := demo_packages ["cve.yaml"] [])
              demo_facade [] [] demo_world)
  = Some (Some ErrNoTargetsAvailable).
Proof.
  eassert (Hres : resolve (P := demo_packages ["cve.yaml"] []) demo_facade []
                    demo_world = Ok (inr (_, _, _)) _)
    by (vm_compute; reflexivity).
  destruct (ExecuteNucleiWithOpts_empty_targets _ _ _ _ _ _ _ Hres) as [H _].
  rewrite H; [reflexivity|]. left. discriminate.
Defined.

(** Nothing resolved, no target: the call returns
    [ErrNoTemplatesAvailable], not [ErrNoTargetsAvailable]. *)
Lemma ExecuteNucleiWithOpts_empty_targets_empty_store :
  (exists tmpEngine u store w1,
     resolve (P := demo_packages [] []) demo_facade [] demo_world
     = Ok (inr (tmpEngine, u, store)) w1) /\
  returned (ExecuteNucleiWithOpts (P := demo_packages [] [])
              demo_facade [] [] demo_world)
  = Some (Some ErrNoTemplatesAvailable) /\
  returned (ExecuteNucleiWithOpts (P := demo_packages [] [])
              demo_facade [] [] demo_world)
  <> Some (Some ErrNoTargetsAvailable).
Proof.
  split; [|split].
  - eexists _, _, _, _. vm_compute. reflexivity.
  - vm_compute. reflexivity.
  - vm_compute. discriminate.
Qed.

(** No template but one workflow, one target: the call returns nil. *)
Lemma ExecuteNucleiWithOpts_no_templates_witness :
  exists r w',
    ExecuteNucleiWithOpts (P := demo_packages [] ["flow.yaml"])
      demo_facade ["example.com"] [] demo_world = Ok r w' /\
    r = None.
Proof.
  eassert (Hres : resolve (P := demo_packages [] ["flow.yaml"]) demo_facade []
                    demo_world = Ok (inr (_, _, _)) _)
    by (vm_compute; reflexivity).
  destruct (ExecuteNucleiWithOpts_no_templates demo_facade ["example.com"]
              _ _ _ _ _ _ Hres)
    as (r & w' & Hrun & _ & Hnil); [discriminate|].
  exists r, w'. split; [exact Hrun|]. apply Hnil; [reflexivity|discriminate].
Defined.

(** The second of three option functions refuses: the call and the
    constructor return its error after two calls. *)
Lemma option_error_aborts_witness :
  (exists w',
     ExecuteNucleiWithOpts (P := demo_packages ["cve.yaml"] [])
       demo_facade ["example.com"]
       ([WithRateLimit 5 0] ++ NotSupported :: [WithRateLimit 7 0]) demo_world
     = Ok (Some ErrOptionsNotSupported) w' /\
     trace w' = [EvOption 0; EvOption 1]) /\
  (exists w',
     NewThreadSafeNucleiEngine (P := demo_packages ["cve.yaml"] [])
       ([WithRateLimit 5 0] ++ NotSupported :: [WithRateLimit 7 0]) demo_world
     = Ok (None, Some ErrOptionsNotSupported) w' /\
     trace w' = [EvOption 0; EvOption 1]).
Proof.
  destruct (option_error_aborts (P := demo_packages ["cve.yaml"] [])
              [WithRateLimit 5 0] NotSupported [WithRateLimit 7 0])
    as [Hexec Hnew].
  split.
  - destruct (Hexec demo_facade ["example.com"] demo_world 1%positive demo_base
                1%positive demo_options
                (zero_fields threadSafe)
                {| RateLimit := 5; RateLimitMinute := 0; rest := tt |}
                (zero_fields threadSafe)
                {| RateLimit := 5; RateLimitMinute := 0; rest := tt |}
                ErrOptionsNotSupported)
      as (w' & Hrun & Htrace & _);
      [repeat split; reflexivity | reflexivity | reflexivity |].
    exists w'. split; [exact Hrun|exact Htrace].
  - destruct (Hnew demo_world
                (zero_fields threadSafe)
                {| RateLimit := 5; RateLimitMinute := 0; rest := tt |}
                (zero_fields threadSafe)
                {| RateLimit := 5; RateLimitMinute := 0; rest := tt |}
                ErrOptionsNotSupported)
      as (w' & Hrun & Htrace & _); [reflexivity | reflexivity |].
    exists w'. split; [exact Hrun|exact Htrace].
Defined.

(** One template, one target, a scan that reports an error: the call
    returns nil. *)
Lemma ExecuteNucleiWithOpts_returns_nil_witness :
  core_ExecuteScanWithOpts (Packages := demo_packages ["cve.yaml"] [])
    None ["cve.yaml"] (provider_of ["example.com"]) false demo_world
  = Some (errors_New "scan failed") /\
  exists w',
    ExecuteNucleiWithOpts (P := demo_packages ["cve.yaml"] [])
      demo_facade ["example.com"] [WithRateLimit 5 0] demo_world = Ok None w'.
Proof.
  split; [reflexivity|].
  eassert (Hres : resolve (P := demo_packages ["cve.yaml"] []) demo_facade
                    [WithRateLimit 5 0] demo_world = Ok (inr (_, _, _)) _)
    by (vm_compute; reflexivity).
  apply (ExecuteNucleiWithOpts_returns_nil _ _ _ _ _ _ _ _ Hres);
    [left|]; discriminate.
Defined.

(** One template, two targets: the scan, then the wait on the same
    executor, end the trace. *)
Lemma ExecuteNucleiWithOpts_waits_own_pool_witness :
  exists lc w' before,
    ExecuteNucleiWithOpts (P := demo_packages ["cve.yaml"] [])
      demo_facade ["a.example"; "b.example"] [] demo_world = Ok None w' /\
    (lc ∉ dom (cores demo_world)) /\
    trace w' = trace demo_world ++ before ++
               [EvExecuteScan (Some lc) ["cve.yaml"]
                  (provider_of ["a.example"; "b.example"]) false;
                EvWait (Some lc)].
Proof.
  eassert (Hres : resolve (P := demo_packages ["cve.yaml"] []) demo_facade []
                    demo_world = Ok (inr (_, _, _)) _)
    by (vm_compute; reflexivity).
  destruct (ExecuteNucleiWithOpts_waits_own_pool demo_facade
              ["a.example"; "b.example"] _ _ _ _ _ _ Hres)
    as (lc & w' & before & Hrun & Hfresh & _ & _ & Htrace & _);
    [left; discriminate | discriminate |].
  exists lc, w', before. split; [exact Hrun|]. split; [exact Hfresh|exact Htrace].
Defined.

(** No template, one workflow, one target: the scan is handed the empty
    list of templates. *)
Lemma ExecuteNucleiWithOpts_scans_templates_only_witness :
  exists w' evs q,
    ExecuteNucleiWithOpts (P := demo_packages [] ["flow.yaml"])
      demo_facade ["example.com"] [] demo_world = Ok None w' /\
    trace w' = trace demo_world ++ evs /\
    (EvExecuteScan q [] (provider_of ["example.com"]) false ∈ evs) /\
    work_items ([] : list string) (provider_of ["example.com"]) = [].
Proof.
  eassert (Hres : resolve (P := demo_packages [] ["flow.yaml"]) demo_facade []
                    demo_world = Ok (inr (_, _, _)) _)
    by (vm_compute; reflexivity).
  destruct (ExecuteNucleiWithOpts_scans_templates_only demo_facade
              ["example.com"] _ _ _ _ _ _ Hres)
    as (w' & evs & scan & Hrun & Htrace & Hin & _ & [q Hscan] & Hnone);
    [right; discriminate | discriminate |].
  exists w', evs, q. split; [exact Hrun|]. split; [exact Htrace|].
  split; [|reflexivity].
  rewrite Hscan in Hin. exact Hin.
Defined.

(** The same target twice: the provider counts two, where one is distinct. *)
Lemma load_targets_counts_duplicates :
  exists ip,
    returned (load_targets ["example.com"; "example.com"] {| Inputs := [] |}
                demo_world) = Some ip /\
    SimpleInputProvider_Count ip = 2%Z /\
    length (remove_dups ["example.com"; "example.com"]) = 1%nat /\
    SimpleInputProvider_Count ip
    <> Z.of_nat (length (remove_dups ["example.com"; "example.com"])).
Proof.
  eexists. split; [vm_compute; reflexivity|].
  split; [reflexivity|]. split; [reflexivity|]. vm_compute. discriminate.
Qed.

Lemma createEphemeralObjects_never_fails_witness :
  exists u w',
    createEphemeralObjects (Some 1%positive) (Some 1%positive) demo_world
    = Ok (u, None) w'.
Proof.
  destruct (createEphemeralObjects_never_fails
              (OptionsRest := unit) (Template := string) (WorkflowLoader := unit))
    as [_ Hrun].
  exact (Hrun demo_world 1%positive demo_base 1%positive demo_options
           eq_refl eq_refl).
Defined.

(** * The facade, further *)

Section Further.

Context {OptionsRest Template WorkflowLoader Store ScanResult : Type}.
Context {P : Packages OptionsRest Template WorkflowLoader Store ScanResult}.

Abbreviation World'' := (World OptionsRest Template WorkflowLoader).
Abbreviation Options'' := (types_Options OptionsRest).
Abbreviation SDKOption' := (NucleiSDKOptions OptionsRest).

Implicit Types (w : World'') (e : ThreadSafeNucleiEngine) (b x : NucleiEngine)
  (bo o : Options'') (optfns done more : list SDKOption') (l lb p pb : loc).

Lemma calls_all optfns : forall f0 o0 f o,
  fold_options optfns f0 o0 = (f, o, None) ->
  calls optfns f0 o0 = length optfns.
Proof.
  induction optfns as [|optfn more IH]; intros f0 o0 f o; cbn; [done|].
  destruct (optfn f0 o0) as [[f1 o1] [e1|]]; [done|].
  intros H. by rewrite (IH _ _ _ _ H).
Qed.

(** The builder on a live engine and a live options object, exactly. *)
Lemma createEphemeralObjects_exact w lb b po o :
  engines w !! lb = Some b ->
  options w !! po = Some o ->
  createEphemeralObjects (Some lb) (Some po) w =
  Ok (ephemeral_objects w b (Some po), None) (ephemeral_world w b (Some po) o).
Proof.
  intros Hb Ho.
  unfold createEphemeralObjects, bind.
  rewrite (load_engine_Some _ _ _ Hb), (load_options_Some _ _ _ Ho).
  unfold ephemeral_objects, ephemeral_world, limiter_for, ephemeral_options.
  destruct (0 <? RateLimitMinute o)%Z; [|destruct (0 <? RateLimit o)%Z];
    cbn; rewrite lookup_insert_eq; cbn; by rewrite insert_insert_eq.
Qed.

(** The clone and the option functions, exactly. *)
Lemma configure_run e optfns w lb b pb bo f o err :
  serves e w lb b pb bo ->
  fold_options optfns (zero_fields threadSafe) bo = (f, o, err) ->
  bind (clone_base e)
    (fun tmpEngine =>
       bind (apply_options tmpEngine optfns 0) (fun r => ret (tmpEngine, r))) w =
  Ok (Some (fresh (dom (engines w))), err)
     (configured_world w f o (calls optfns (zero_fields threadSafe) bo)).
Proof.
  intros Hserves Hfold. unfold bind.
  rewrite (clone_base_run _ _ _ _ _ _ Hserves).
  erewrite apply_options_run; cbn;
    [| by rewrite lookup_insert_eq | done | by rewrite lookup_insert_eq
     | exact Hfold ].
  unfold ret, configured_world. by rewrite !insert_insert_eq.
Qed.

(** The first half of the call on a served world, exactly: the error of
    the first failing option function; else what the two loaders answer on
    the ephemeral objects of the configured world. *)
Lemma resolve_run e optfns w lb b pb bo f o err :
  serves e w lb b pb bo ->
  fold_options optfns (zero_fields threadSafe) bo = (f, o, err) ->
  let pt := Some (fresh (dom (options w))) in
  let w2 := configured_world w f o (calls optfns (zero_fields threadSafe) bo) in
  let u := ephemeral_objects w2 b pt in
  let w4 := ephemeral_world w2 b pt o in
  resolve e optfns w =
  match err with
  | Some err' => Ok (inl err') w2
  | None =>
      match parsers_NewLoader (executerOpts u) (traced w4 [EvNewLoader]) with
      | inl err' =>
          Ok (inl (errorutil_New fmt_workflow_loader err'))
             (traced w4 [EvNewLoader])
      | inr workflowLoader =>
          match loader_New
                  {| cfg_options := pt;
                     cfg_catalog := catalog (fields b);
                     cfg_executerOpts :=
                       set_WorkflowLoader workflowLoader (executerOpts u) |}
                  (traced w4 [EvNewLoader; EvLoaderNew]) with
          | inl err' =>
              Ok (inl (errorutil_New fmt_loader_client err'))
                 (traced w4 [EvNewLoader; EvLoaderNew])
          | inr store0 =>
              Ok (inr (Some (fresh (dom (engines w))),
                       {| executerOpts :=
                            set_WorkflowLoader workflowLoader (executerOpts u);
                          engine := engine u |},
                       store_Load store0
                         (traced w4 [EvNewLoader; EvLoaderNew; EvStoreLoad])))
                 (traced w4 [EvNewLoader; EvLoaderNew; EvStoreLoad])
          end
      end
  end.
Proof.
  intros Hserves Hfold pt w2 u w4.
  pose proof Hserves as (He & Hb & Hpb & Hbo).
  pose proof (is_fresh (dom (engines w))) as Hfl.
  assert (Hne : fresh (dom (engines w)) <> lb).
  { intros Heq. apply Hfl. rewrite Heq. apply elem_of_dom. eauto. }
  pose proof (configure_run e optfns w lb b pb bo f o err Hserves Hfold) as Hconf.
  unfold bind in Hconf. unfold resolve, bind.
  destruct (clone_base e w) as [q w1|]; [|done].
  destruct (apply_options q optfns 0 w1) as [r w2'|]; [|done].
  unfold ret in Hconf. injection Hconf as -> -> ->.
  fold w2.
  destruct err as [err|]; [done|].
  assert (Hlt2 : engines w2 !! fresh (dom (engines w))
                 = Some {| opts := pt; fields := f |})
    by (unfold w2, configured_world; cbn; by rewrite lookup_insert_eq).
  assert (Hpt2 : options w2 !! fresh (dom (options w)) = Some o)
    by (unfold w2, configured_world; cbn; by rewrite lookup_insert_eq).
  assert (Hb2 : engines w2 !! lb = Some b)
    by (unfold w2, configured_world; cbn; by rewrite lookup_insert_ne).
  rewrite (load_engine_Some _ _ _ Hlt2). cbn [opts]. rewrite He.
  unfold pt at 1.
  rewrite (createEphemeralObjects_exact w2 lb b _ o Hb2 Hpt2).
  fold pt. fold u. fold w4. cbn [log get].
  destruct (parsers_NewLoader _ _) as [err|wl]; [done|].
  rewrite (load_engine_Some (traced w4 _) _ {| opts := pt; fields := f |})
    by exact Hlt2.
  rewrite (load_engine_Some (traced w4 _) lb b) by exact Hb2.
  cbn [opts]. rewrite !traced_traced. cbn [app].
  destruct (loader_New _ _) as [err|store0]; [done|].
  unfold ret. by rewrite !traced_traced.
Qed.

(** The whole call on a served world, exactly. *)
Lemma ExecuteNucleiWithOpts_run e targets optfns w lb b pb bo f o err :
  serves e w lb b pb bo ->
  fold_options optfns (zero_fields threadSafe) bo = (f, o, err) ->
  let pt := Some (fresh (dom (options w))) in
  let w2 := configured_world w f o (calls optfns (zero_fields threadSafe) bo) in
  let u := ephemeral_objects w2 b pt in
  let w4 := ephemeral_world w2 b pt o in
  ExecuteNucleiWithOpts e targets optfns w =
  match err with
  | Some err' => Ok (Some err') w2
  | None =>
      match parsers_NewLoader (executerOpts u) (traced w4 [EvNewLoader]) with
      | inl err' =>
          Ok (Some (errorutil_New fmt_workflow_loader err'))
             (traced w4 [EvNewLoader])
      | inr workflowLoader =>
          let eo := set_WorkflowLoader workflowLoader (executerOpts u) in
          match loader_New
                  {| cfg_options := pt;
                     cfg_catalog := catalog (fields b);
                     cfg_executerOpts := eo |}
                  (traced w4 [EvNewLoader; EvLoaderNew]) with
          | inl err' =>
              Ok (Some (errorutil_New fmt_loader_client err'))
                 (traced w4 [EvNewLoader; EvLoaderNew])
          | inr store0 =>
              let w7 := traced w4 [EvNewLoader; EvLoaderNew; EvStoreLoad] in
              let store := store_Load store0 w7 in
              if (length (store_Templates store) =? 0)%nat
                 && (length (store_Workflows store) =? 0)%nat
              then Ok (Some ErrNoTemplatesAvailable)
                      (traced w7 (map EvSet targets))
              else if (length targets =? 0)%nat
              then Ok (Some ErrNoTargetsAvailable)
                      (traced w7 (map EvSet targets))
              else
                let lc := fresh (dom (cores w7)) in
                Ok None
                   {| engines := engines w7; options := options w7;
                      limiters := limiters w7;
                      cores := <[lc := {| core_options := pt;
                                          core_executerOpts := Some eo |}]>
                                 (cores w7);
                      trace := trace w7 ++ map EvSet targets ++
                               [EvExecuteScan (Some lc) (store_Templates store)
                                  (provider_of targets) false;
                                EvWait (Some lc)] |}
          end
      end
  end.
Proof.
  intros Hserves Hfold pt w2 u w4.
  rewrite ExecuteNucleiWithOpts_split.
  rewrite (resolve_run e optfns w lb b pb bo f o err Hserves Hfold).
  fold pt. fold w2. fold u. fold w4.
  destruct err as [err|]; [done|].
  destruct (parsers_NewLoader _ _) as [err|wl]; [done|].
  cbv zeta.
  destruct (loader_New _ _) as [err|store0]; [done|].
  rewrite (validate_and_scan_run _ _ targets _ (fresh (dom (engines w)))
             {| opts := pt; fields := f |}).
  - reflexivity.
  - unfold traced, w4, ephemeral_world, w2, configured_world. cbn.
    by rewrite lookup_insert_eq.
Qed.

(** ** A call only allocates *)

Lemma extends_refl w : extends w w.
Proof. repeat split; try done. exists []. by rewrite app_nil_r. Qed.

Lemma extends_trans w1 w2 w3 : extends w1 w2 -> extends w2 w3 -> extends w1 w3.
Proof.
  intros (He & Ho & Hl & Hc & evs & Ht) (He' & Ho' & Hl' & Hc' & evs' & Ht').
  repeat split; try (by etrans).
  exists (evs ++ evs'). by rewrite Ht', Ht, app_assoc.
Qed.

Lemma extends_traced w (evs : list (Event Template)) : extends w (traced w evs).
Proof. repeat split; try done. by exists evs. Qed.

Lemma fresh_insert_subseteq {V} (m : gmap loc V) (v : V) :
  m ⊆ <[fresh (dom m) := v]> m.
Proof. apply insert_subseteq, not_elem_of_dom, is_fresh. Qed.

Lemma extends_configured w f o n : extends w (configured_world w f o n).
Proof.
  repeat split; cbn; try done; try apply fresh_insert_subseteq. eauto.
Qed.

Lemma extends_ephemeral w b (po : ptr) o : extends w (ephemeral_world w b po o).
Proof.
  repeat split; cbn; try done; try apply fresh_insert_subseteq.
  exists []. by rewrite app_nil_r.
Qed.

Lemma fresh_after_insert {V} (m : gmap loc V) (k : loc) (v : V) :
  fresh (dom (<[k := v]> m)) ∉ dom m.
Proof.
  intros Hin. apply (is_fresh (dom (<[k := v]> m))).
  rewrite dom_insert_L in *. apply elem_of_union. by right.
Qed.

(** X6.  On a facade that serves from a live engine, a call returns, and
    every engine, options object, limiter and executor that existed before it
    is left as it was: the call writes only to objects it has allocated, and
    only appends to the trace. *)
Theorem ExecuteNucleiWithOpts_only_allocates e targets optfns w lb b pb bo :
  serves e w lb b pb bo ->
  exists r w', ExecuteNucleiWithOpts e targets optfns w = Ok r w' /\ extends w w'.
Proof.
  intros Hserves.
  destruct (fold_options optfns (zero_fields threadSafe) bo)
    as [[f o] err] eqn:Hfold.
  rewrite (ExecuteNucleiWithOpts_run e targets optfns w lb b pb bo f o err
             Hserves Hfold).
  set (w2 := configured_world w f o _).
  set (w4 := ephemeral_world w2 b _ o).
  assert (H2 : extends w w2) by apply extends_configured.
  assert (H4 : forall evs, extends w (traced w4 evs)).
  { intros evs. eapply extends_trans; [exact H2|].
    eapply extends_trans; [apply extends_ephemeral|apply extends_traced]. }
  destruct err as [err|]; [eauto|].
  destruct (parsers_NewLoader _ _) as [err|wl]; [eauto|].
  cbv zeta.
  destruct (loader_New _ _) as [err|store0]; [eauto|].
  repeat case_match; eexists _, _; (split; [reflexivity|]).
  - eapply extends_trans; [apply H4|apply extends_traced].
  - eapply extends_trans; [apply H4|apply extends_traced].
  - eapply extends_trans; [apply (H4 [EvNewLoader; EvLoaderNew; EvStoreLoad])|].
    repeat split; cbn; try done; try apply fresh_insert_subseteq. eauto.
Qed.

(** ** Loader failures *)

(** X2.  When every option function has returned nil and
    [parsers.NewLoader], called on the ephemeral executor options, fails, the
    call returns that error wrapped by "Could not create workflow loader", and
    stops there: [loader.New] is not called, nothing is loaded, no target is
    set, no scan is started. *)
Theorem ExecuteNucleiWithOpts_workflow_loader_error e targets optfns w
    lb b pb bo f o cause :
  serves e w lb b pb bo ->
  fold_options optfns (zero_fields threadSafe) bo = (f, o, None) ->
  (let pt := Some (fresh (dom (options w))) in
   let w2 := configured_world w f o (length optfns) in
   parsers_NewLoader (executerOpts (ephemeral_objects w2 b pt))
     (traced (ephemeral_world w2 b pt o) [EvNewLoader]) = inl cause) ->
  exists w',
    ExecuteNucleiWithOpts e targets optfns w
    = Ok (Some (errorutil_New fmt_workflow_loader cause)) w' /\
    trace w' = trace w ++ map EvOption (seq 0 (length optfns)) ++ [EvNewLoader].
Proof.
  intros Hserves Hfold Hnew. cbv zeta in Hnew.
  rewrite (ExecuteNucleiWithOpts_run e targets optfns w lb b pb bo f o None
             Hserves Hfold).
  cbv zeta. rewrite (calls_all _ _ _ _ _ Hfold), Hnew.
  eexists. split; [reflexivity|]. cbn. by rewrite <- app_assoc.
Qed.

(** X3.  When the workflow loader has been built and [loader.New] fails,
    the call returns that error wrapped by "Could not create loader client",
    and stops there: [store.Load] is not called, no target is set, no scan is
    started. *)
Theorem ExecuteNucleiWithOpts_loader_error e targets optfns w
    lb b pb bo f o (workflowLoader : WorkflowLoader) cause :
  serves e w lb b pb bo ->
  fold_options optfns (zero_fields threadSafe) bo = (f, o, None) ->
  (let pt := Some (fresh (dom (options w))) in
   let w2 := configured_world w f o (length optfns) in
   let u := ephemeral_objects w2 b pt in
   let w4 := ephemeral_world w2 b pt o in
   parsers_NewLoader (executerOpts u) (traced w4 [EvNewLoader])
   = inr workflowLoader /\
   loader_New {| cfg_options := pt;
                 cfg_catalog := catalog (fields b);
                 cfg_executerOpts :=
                   set_WorkflowLoader workflowLoader (executerOpts u) |}
     (traced w4 [EvNewLoader; EvLoaderNew]) = inl cause) ->
  exists w',
    ExecuteNucleiWithOpts e targets optfns w
    = Ok (Some (errorutil_New fmt_loader_client cause)) w' /\
    trace w' = trace w ++ map EvOption (seq 0 (length optfns)) ++
               [EvNewLoader; EvLoaderNew].
Proof.
  intros Hserves Hfold Hload. cbv zeta in Hload. destruct Hload as [Hnew Hload].
  rewrite (ExecuteNucleiWithOpts_run e targets optfns w lb b pb bo f o None
             Hserves Hfold).
  cbv zeta. rewrite (calls_all _ _ _ _ _ Hfold), Hnew, Hload.
  eexists. split; [reflexivity|]. cbn. by rewrite <- app_assoc.
Qed.

(** ** The errors a call can return *)

(** X8.  An error returned by a call on a served world is the error of the
    first failing option function, or a loader's error wrapped by one of the
    two messages, or [ErrNoTemplatesAvailable], or [ErrNoTargetsAvailable];
    the last only when there is no target. *)
Theorem ExecuteNucleiWithOpts_errors e targets optfns w lb b pb bo err w' :
  serves e w lb b pb bo ->
  ExecuteNucleiWithOpts e targets optfns w = Ok (Some err) w' ->
  (exists f o, fold_options optfns (zero_fields threadSafe) bo = (f, o, Some err)) \/
  (exists cause, err = errorutil_New fmt_workflow_loader cause) \/
  (exists cause, err = errorutil_New fmt_loader_client cause) \/
  err = ErrNoTemplatesAvailable \/
  (err = ErrNoTargetsAvailable /\ targets = []).
Proof.
  intros Hserves.
  destruct (fold_options optfns (zero_fields threadSafe) bo)
    as [[f o] err0] eqn:Hfold.
  rewrite (ExecuteNucleiWithOpts_run e targets optfns w lb b pb bo f o err0
             Hserves Hfold).
  cbv zeta.
  destruct err0 as [err0|]; [intros [= <- _]; eauto|].
  destruct (parsers_NewLoader _ _) as [cause|wl];
    [intros [= <- _]; eauto|].
  destruct (loader_New _ _) as [cause|store0];
    [intros [= <- _]; eauto 6|].
  destruct (_ && _); [intros [= <- _]; eauto 6|].
  destruct targets as [|t targets]; [intros [= <- _]; eauto 8|].
  discriminate.
Qed.

(** ** The executor of a call *)

Lemma setup_has_no_scan n (pre : list (Event Template)) targets
    (q : ptr) ts ip nc :
  (forall ev, ev ∈ pre -> ev ∈ [EvNewLoader; EvLoaderNew; EvStoreLoad]) ->
  EvExecuteScan q ts ip nc ∉ map EvOption (seq 0 n) ++ pre ++ map EvSet targets.
Proof.
  intros Hpre. rewrite !elem_of_app, !list_elem_of_In, !in_map_iff.
  intros [(i & Hi & _)|[Hin|(t & Ht & _)]]; try discriminate.
  apply list_elem_of_In, Hpre, list_elem_of_In in Hin.
  cbn in Hin. intuition discriminate.
Qed.

(** X9.  On a served world a call returns nil exactly when it has started
    a scan: every error is returned before the executor is started, and a
    started scan is never followed by an error. *)
Theorem ExecuteNucleiWithOpts_nil_iff_scanned e targets optfns w lb b pb bo :
  serves e w lb b pb bo ->
  exists r w' evs,
    ExecuteNucleiWithOpts e targets optfns w = Ok r w' /\
    trace w' = trace w ++ evs /\
    (r = None <-> exists q ts ip nc, EvExecuteScan q ts ip nc ∈ evs).
Proof.
  intros Hserves.
  destruct (fold_options optfns (zero_fields threadSafe) bo)
    as [[f o] err] eqn:Hfold.
  rewrite (ExecuteNucleiWithOpts_run e targets optfns w lb b pb bo f o err
             Hserves Hfold).
  cbv zeta.
  set (n := calls optfns (zero_fields threadSafe) bo).
  assert (Hnone : forall (pre : list (Event Template)) targets0 err0,
             (forall ev, ev ∈ pre -> ev ∈ [EvNewLoader; EvLoaderNew; EvStoreLoad]) ->
             (Some err0 = None :> option error) <->
             exists q ts ip nc,
               EvExecuteScan q ts ip nc
               ∈ map EvOption (seq 0 n) ++ pre ++ map EvSet targets0).
  { intros pre targets0 err0 Hpre. split; [done|].
    intros (q & ts & ip & nc & Hin).
    by apply setup_has_no_scan in Hin. }
  destruct err as [err|].
  { eexists _, _, (map EvOption (seq 0 n) ++ [] ++ map EvSet []).
    split; [reflexivity|]. split; [cbn; by rewrite app_nil_r|].
    apply Hnone. intros ev Hev. by apply elem_of_nil in Hev. }
  destruct (parsers_NewLoader _ _) as [cause|wl].
  { eexists _, _, (map EvOption (seq 0 n) ++ [EvNewLoader] ++ map EvSet []).
    split; [reflexivity|]. split; [cbn; by rewrite <- app_assoc|].
    apply Hnone. intros ev Hev.
    repeat (apply elem_of_cons in Hev as [->|Hev]); try (by repeat constructor);
      by apply elem_of_nil in Hev. }
  destruct (loader_New _ _) as [cause|store0].
  { eexists _, _,
      (map EvOption (seq 0 n) ++ [EvNewLoader; EvLoaderNew] ++ map EvSet []).
    split; [reflexivity|]. split; [cbn; by rewrite <- app_assoc|].
    apply Hnone. intros ev Hev.
    repeat (apply elem_of_cons in Hev as [->|Hev]); try (by repeat constructor);
      by apply elem_of_nil in Hev. }
  destruct (_ && _).
  { eexists _, _,
      (map EvOption (seq 0 n) ++ [EvNewLoader; EvLoaderNew; EvStoreLoad]
       ++ map EvSet targets).
    split; [reflexivity|]. split; [cbn; by rewrite <- !app_assoc|].
    by apply Hnone. }
  destruct (length targets =? 0)%nat.
  { eexists _, _,
      (map EvOption (seq 0 n) ++ [EvNewLoader; EvLoaderNew; EvStoreLoad]
       ++ map EvSet targets).
    split; [reflexivity|]. split; [cbn; by rewrite <- !app_assoc|].
    by apply Hnone. }
  eexists _, _, _. split; [reflexivity|]. split.
  { cbn. rewrite <- !app_assoc. reflexivity. }
  split; [|done]. intros _. eexists _, _, _, _.
  rewrite !elem_of_app. do 3 right. apply list_elem_of_here.
Qed.

(** X4.  When a call on a served world returns nil, every option function
    has returned nil, and the executor the call ends on (the one it waits
    for) is a new one, built on the call's own options object, which holds
    what the option functions made of the base options; its limiter is a new
    one chosen from those options; its writer, progress, catalog, issue
    client, interactsh client and host error cache are the shared engine's,
    whatever the option functions wrote into the temporary engine. *)
Theorem ExecuteNucleiWithOpts_executor e targets optfns w lb b pb bo w' :
  serves e w lb b pb bo ->
  ExecuteNucleiWithOpts e targets optfns w = Ok None w' ->
  exists f o lc pt ll eo,
    fold_options optfns (zero_fields threadSafe) bo = (f, o, None) /\
    last (trace w') = Some (EvWait (Some lc)) /\
    (lc ∉ dom (cores w)) /\
    cores w' !! lc = Some {| core_options := Some pt;
                             core_executerOpts := Some eo |} /\
    Options eo = Some pt /\
    (pt ∉ dom (options w)) /\ options w' !! pt = Some o /\
    RateLimiter eo = Some ll /\
    (ll ∉ dom (limiters w)) /\ limiters w' !! ll = Some (limiter_for o) /\
    Output eo = customWriter (fields b) /\
    Progress eo = customProgress (fields b) /\
    Catalog eo = catalog (fields b) /\
    IssuesClient eo = rc (fields b) /\
    Interactsh eo = interactshClient (fields b) /\
    HostErrorsCache eo = hostErrCache (fields b).
Proof.
  intros Hserves.
  destruct (fold_options optfns (zero_fields threadSafe) bo)
    as [[f o] err] eqn:Hfold.
  rewrite (ExecuteNucleiWithOpts_run e targets optfns w lb b pb bo f o err
             Hserves Hfold).
  cbv zeta.
  destruct err as [err|]; [discriminate|].
  destruct (parsers_NewLoader _ _) as [cause|wl]; [discriminate|].
  destruct (loader_New _ _) as [cause|store0]; [discriminate|].
  destruct (_ && _); [discriminate|].
  destruct (length targets =? 0)%nat; [discriminate|].
  intros [= <-].
  eexists f, o, _, (fresh (dom (options w))), (fresh (dom (limiters w))), _.
  split; [done|]. cbn.
  split.
  { rewrite !app_assoc.
    match goal with
    | |- last (?pre ++ [?a; ?c]) = _ =>
        change (pre ++ [a; c]) with (pre ++ [a] ++ [c])
    end.
    rewrite app_assoc. apply last_snoc. }
  split.
  { apply fresh_after_insert. }
  rewrite !lookup_insert_eq.
  repeat split; try done; apply is_fresh.
Qed.

(** ** The constructor *)

(** X1.  When no option function fails, the constructor calls [init] once,
    after all of them, on a new engine whose options object is new and holds
    what the option functions, applied in order, make of the default options;
    it returns [init]'s error and no facade, or nil and a facade on that
    engine.  Until [init] runs, no object that existed before is written. *)
Theorem NewThreadSafeNucleiEngine_init optfns w f o :
  fold_options optfns (zero_fields threadSafe) DefaultOptions = (f, o, None) ->
  let le := Some (fresh (dom (engines w))) in
  let w2 := traced (configured_world w f o (length optfns)) [EvInit le] in
  extends w w2 /\
  NewThreadSafeNucleiEngine optfns w =
  match NucleiEngine_init le w2 with
  | Ok (Some err) w3 => Ok (None, Some err) w3
  | Ok None w3 => Ok (Some {| eng := le |}, None) w3
  | Panic msg => Panic msg
  end.
Proof.
  intros Hfold le w2. split.
  { eapply extends_trans; [apply extends_configured|apply extends_traced]. }
  unfold NewThreadSafeNucleiEngine, bind. cbn [alloc_options alloc_engine].
  erewrite apply_options_run;
    [| cbn; by rewrite lookup_insert_eq | done
     | cbn; by rewrite lookup_insert_eq | exact Hfold ].
  cbn [fields engines options limiters cores trace log].
  rewrite (calls_all _ _ _ _ _ Hfold), !insert_insert_eq.
  fold le. fold (configured_world w f o (length optfns)). fold w2.
  by destruct (NucleiEngine_init le w2) as [[err|] w3|].
Qed.

(** ** Successive builds *)

(** X5.  Two builds in a row, on the same base engine, share neither the
    limiter nor the executor, even for the same options object; the second
    build leaves the first limiter as it was, and each limiter is the one
    chosen from the options of its own build. *)
Theorem createEphemeralObjects_twice w lb b po1 o1 po2 o2 :
  engines w !! lb = Some b ->
  options w !! po1 = Some o1 ->
  options w !! po2 = Some o2 ->
  exists u1 w1 u2 w2 l1 l2,
    createEphemeralObjects (Some lb) (Some po1) w = Ok (u1, None) w1 /\
    createEphemeralObjects (Some lb) (Some po2) w1 = Ok (u2, None) w2 /\
    RateLimiter (executerOpts u1) = Some l1 /\
    RateLimiter (executerOpts u2) = Some l2 /\
    l1 <> l2 /\ engine u1 <> engine u2 /\
    limiters w2 !! l1 = Some (limiter_for o1) /\
    limiters w2 !! l2 = Some (limiter_for o2).
Proof.
  intros Hb Ho1 Ho2.
  pose proof (createEphemeralObjects_exact w lb b po1 o1 Hb Ho1) as H1.
  set (w1 := ephemeral_world w b (Some po1) o1) in *.
  pose proof (createEphemeralObjects_exact w1 lb b po2 o2 Hb Ho2) as H2.
  pose proof (is_fresh (dom (limiters w1))) as Hl.
  pose proof (is_fresh (dom (cores w1))) as Hc.
  assert (Hl1 : fresh (dom (limiters w)) ∈ dom (limiters w1)).
  { apply elem_of_dom. cbn. rewrite lookup_insert_eq. eauto. }
  assert (Hc1 : fresh (dom (cores w)) ∈ dom (cores w1)).
  { apply elem_of_dom. cbn. rewrite lookup_insert_eq. eauto. }
  assert (Hnel : fresh (dom (limiters w)) <> fresh (dom (limiters w1))).
  { intros Heq. apply Hl. by rewrite <- Heq. }
  assert (Hnec : fresh (dom (cores w)) <> fresh (dom (cores w1))).
  { intros Heq. apply Hc. by rewrite <- Heq. }
  exists (ephemeral_objects w b (Some po1)), w1,
    (ephemeral_objects w1 b (Some po2)), (ephemeral_world w1 b (Some po2) o2),
    (fresh (dom (limiters w))), (fresh (dom (limiters w1))).
  split; [exact H1|]. split; [exact H2|].
  split; [reflexivity|]. split; [reflexivity|].
  split; [exact Hnel|].
  split. { intros [= Heq]. by apply Hnec. }
  split.
  - change (limiters (ephemeral_world w1 b (Some po2) o2))
      with (<[fresh (dom (limiters w1)) := limiter_for o2]> (limiters w1)).
    rewrite lookup_insert_ne by (by intros Heq; apply Hnel).
    change (limiters w1)
      with (<[fresh (dom (limiters w)) := limiter_for o1]> (limiters w)).
    by rewrite lookup_insert_eq.
  - change (limiters (ephemeral_world w1 b (Some po2) o2))
      with (<[fresh (dom (limiters w1)) := limiter_for o2]> (limiters w1)).
    by rewrite lookup_insert_eq.
Qed.

(** ** Nil pointers *)

(** X7.  On a facade whose engine is nil the call panics (it returns no
    error), and so it does when the engine's options are nil; the builder
    panics on a nil base engine and on nil options. *)
Theorem nil_pointer_panics e w lb b :
  (eng e = None -> forall targets optfns,
     ExecuteNucleiWithOpts e targets optfns w = Panic nil_deref) /\
  (eng e = Some lb -> engines w !! lb = Some b -> opts b = None ->
   forall targets optfns,
     ExecuteNucleiWithOpts e targets optfns w = Panic nil_deref) /\
  (forall po : ptr, createEphemeralObjects None po w = Panic nil_deref) /\
  (engines w !! lb = Some b ->
   createEphemeralObjects (Some lb) None w = Panic nil_deref).
Proof.
  split; [|split; [|split]].
  - intros He targets optfns.
    unfold ExecuteNucleiWithOpts, clone_base, bind. by rewrite He.
  - intros He Hb Ho targets optfns.
    unfold ExecuteNucleiWithOpts, clone_base, bind.
    by rewrite He, (load_engine_Some _ _ _ Hb), Ho.
  - done.
  - intros Hb. unfold createEphemeralObjects, bind.
    by rewrite (load_engine_Some _ _ _ Hb).
Qed.

(** X15.  A call that returns nil has built two executors, on the same
    options object: the builder's, whose executor options have no workflow
    loader, and the one of the call itself, whose executor options are the
    same with the workflow loader set.  Scan and wait are made on the second
    only: the builder's executor is never started and never waited for. *)
Theorem ExecuteNucleiWithOpts_two_executors e targets optfns w lb b pb bo w' :
  serves e w lb b pb bo ->
  ExecuteNucleiWithOpts e targets optfns w = Ok None w' ->
  exists l1 lc (po : ptr) eo1 workflowLoader evs,
    l1 <> lc /\ (l1 ∉ dom (cores w)) /\ (lc ∉ dom (cores w)) /\
    dom (cores w') = {[lc]} ∪ ({[l1]} ∪ dom (cores w)) /\
    cores w' !! l1 = Some {| core_options := po;
                             core_executerOpts := Some eo1 |} /\
    cores w' !! lc
    = Some {| core_options := po;
              core_executerOpts := Some (set_WorkflowLoader workflowLoader eo1) |} /\
    WorkflowLoader_ eo1 = None /\
    trace w' = trace w ++ evs /\
    (forall q ts ip nc, EvExecuteScan q ts ip nc ∈ evs -> q = Some lc) /\
    (forall q, EvWait q ∈ evs -> q = Some lc).
Proof.
  intros Hserves.
  destruct (fold_options optfns (zero_fields threadSafe) bo)
    as [[f o] err] eqn:Hfold.
  rewrite (ExecuteNucleiWithOpts_run e targets optfns w lb b pb bo f o err
             Hserves Hfold).
  cbv zeta.
  destruct err as [err|]; [discriminate|].
  destruct (parsers_NewLoader _ _) as [cause|wl]; [discriminate|].
  destruct (loader_New _ _) as [cause|store0]; [discriminate|].
  destruct (_ && _); [discriminate|].
  destruct (length targets =? 0)%nat; [discriminate|].
  intros [= <-]. cbn.
  set (l1 := fresh (dom (cores w))).
  set (c1 := {| core_options := Some (fresh (dom (options w)));
                core_executerOpts :=
                  Some (ephemeral_options b (Some (fresh (dom (options w))))
                          (Some (fresh (dom (limiters w))))) |}).
  set (lc := fresh (dom (<[l1 := c1]> (cores w)))).
  assert (Hne : l1 <> lc).
  { intros Heq. apply (is_fresh (dom (<[l1 := c1]> (cores w)))).
    fold lc. rewrite <- Heq, dom_insert_L.
    apply elem_of_union_l. by apply elem_of_singleton. }
  exists l1, lc, (Some (fresh (dom (options w)))),
    (ephemeral_options b (Some (fresh (dom (options w))))
       (Some (fresh (dom (limiters w))))), wl,
    (map EvOption (seq 0 (calls optfns (zero_fields threadSafe) bo)) ++
     [EvNewLoader; EvLoaderNew; EvStoreLoad] ++ map EvSet targets ++
     [EvExecuteScan (Some lc) (store_Templates
                                 (store_Load store0
                                    (traced
                                       (ephemeral_world
                                          (configured_world w f o
                                             (calls optfns (zero_fields threadSafe) bo))
                                          b (Some (fresh (dom (options w)))) o)
                                       [EvNewLoader; EvLoaderNew; EvStoreLoad])))
        (provider_of targets) false;
      EvWait (Some lc)]).
  split; [done|]. split; [apply is_fresh|].
  split; [apply fresh_after_insert|].
  split. { by rewrite !dom_insert_L. }
  split. { by rewrite lookup_insert_ne, lookup_insert_eq. }
  split. { by rewrite lookup_insert_eq. }
  split; [done|].
  split. { by rewrite <- !app_assoc. }
  split.
  - intros q ts ip nc.
    rewrite !elem_of_app, !list_elem_of_In, !in_map_iff.
    intros [(i & Hi & _)|[Hin|[(t & Ht & _)|Hin]]]; try discriminate;
      cbn in Hin; intuition (try discriminate); congruence.
  - intros q.
    rewrite !elem_of_app, !list_elem_of_In, !in_map_iff.
    intros [(i & Hi & _)|[Hin|[(t & Ht & _)|Hin]]]; try discriminate;
      cbn in Hin; intuition (try discriminate); congruence.
Qed.

End Further.

Lemma NewThreadSafeNucleiEngine_init_witness :
  returned (NewThreadSafeNucleiEngine
              (P := demo_packages_with (inr tt) (inr tt)
                      (Some (errors_New "init failed")) [] [])
              [WithRateLimit 5 0] demo_world)
  = Some (None, Some (errors_New "init failed")).
Proof.
  destruct (NewThreadSafeNucleiEngine_init
              (P := demo_packages_with (inr tt) (inr tt)
                      (Some (errors_New "init failed")) [] [])
              [WithRateLimit 5 0] demo_world (zero_fields threadSafe)
              {| RateLimit := 5; RateLimitMinute := 0; rest := tt |} eq_refl)
    as [_ Hrun].
  rewrite Hrun. reflexivity.
Defined.

Lemma ExecuteNucleiWithOpts_workflow_loader_error_witness :
  exists w',
    ExecuteNucleiWithOpts
      (P := demo_packages_with (inl (errors_New "no parser")) (inr tt) None
              ["cve.yaml"] [])
      demo_facade ["example.com"] [WithRateLimit 5 0] demo_world
    = Ok (Some (errorutil_New fmt_workflow_loader (errors_New "no parser"))) w' /\
    trace w' = [EvOption 0; EvNewLoader].
Proof.
  apply (ExecuteNucleiWithOpts_workflow_loader_error
           (P := demo_packages_with (inl (errors_New "no parser")) (inr tt) None
                   ["cve.yaml"] [])
           demo_facade ["example.com"] [WithRateLimit 5 0] demo_world
           1%positive demo_base 1%positive demo_options
           (zero_fields threadSafe)
           {| RateLimit := 5; RateLimitMinute := 0; rest := tt |}
           (errors_New "no parser"));
    [repeat split; reflexivity | reflexivity | reflexivity].
Defined.

Lemma ExecuteNucleiWithOpts_loader_error_witness :
  exists w',
    ExecuteNucleiWithOpts
      (P := demo_packages_with (inr tt) (inl (errors_New "no catalog")) None
              ["cve.yaml"] [])
      demo_facade ["example.com"] [] demo_world
    = Ok (Some (errorutil_New fmt_loader_client (errors_New "no catalog"))) w' /\
    trace w' = [EvNewLoader; EvLoaderNew].
Proof.
  apply (ExecuteNucleiWithOpts_loader_error
           (P := demo_packages_with (inr tt) (inl (errors_New "no catalog")) None
                   ["cve.yaml"] [])
           demo_facade ["example.com"] [] demo_world
           1%positive demo_base 1%positive demo_options
           (zero_fields threadSafe) demo_options tt (errors_New "no catalog"));
    [repeat split; reflexivity | reflexivity | split; reflexivity].
Defined.

(** An option sets a quota and another a writer: the executor gets a
    limiter of that quota and the shared engine's (nil) writer. *)
Lemma ExecuteNucleiWithOpts_executor_witness :
  exists w' lc pt ll eo,
    ExecuteNucleiWithOpts (P := demo_packages ["cve.yaml"] [])
      demo_facade ["example.com"]
      [WithRateLimit 5 0; WithWriter 9%positive] demo_world = Ok None w' /\
    cores w' !! lc = Some {| core_options := Some pt;
                             core_executerOpts := Some eo |} /\
    options w' !! pt
    = Some {| RateLimit := 5; RateLimitMinute := 0; rest := tt |} /\
    RateLimiter eo = Some ll /\
    limiters w' !! ll = Some (Limited 5 time_Second) /\
    Output eo = None.
Proof.
  assert (Hserves : serves demo_facade demo_world 1%positive demo_base
                      1%positive demo_options)
    by (repeat split; reflexivity).
  eassert (Hrun : ExecuteNucleiWithOpts (P := demo_packages ["cve.yaml"] [])
                    demo_facade ["example.com"]
                    [WithRateLimit 5 0; WithWriter 9%positive] demo_world
                  = Ok None _)
    by (vm_compute; reflexivity).
  destruct (ExecuteNucleiWithOpts_executor _ _ _ _ _ _ _ _ _ Hserves Hrun)
    as (f & o & lc & pt & ll & eo & Hfold & _ & _ & Hcore & _ & _ & Hopt
        & Hrl & _ & Hlim & Hout & _).
  injection Hfold as <- <-.
  eexists _, lc, pt, ll, eo. split; [exact Hrun|].
  split; [exact Hcore|]. split; [exact Hopt|]. split; [exact Hrl|].
  split; [exact Hlim|exact Hout].
Defined.

Lemma createEphemeralObjects_twice_witness :
  exists u1 w1 u2 w2,
    createEphemeralObjects (Some 1%positive) (Some 1%positive) demo_world
    = Ok (u1, None) w1 /\
    createEphemeralObjects (Some 1%positive) (Some 1%positive) w1
    = Ok (u2, None) w2 /\
    RateLimiter (executerOpts u1) <> RateLimiter (executerOpts u2) /\
    engine u1 <> engine u2.
Proof.
  destruct (createEphemeralObjects_twice (WorkflowLoader := unit) demo_world
              1%positive demo_base 1%positive demo_options 1%positive
              demo_options eq_refl eq_refl eq_refl)
    as (u1 & w1 & u2 & w2 & l1 & l2 & H1 & H2 & Hl1 & Hl2 & Hne & Hne' & _).
  exists u1, w1, u2, w2. split; [exact H1|]. split; [exact H2|].
  split; [|exact Hne'].
  rewrite Hl1, Hl2. intros Heq. injection Heq as Heq. exact (Hne Heq).
Defined.

Lemma ExecuteNucleiWithOpts_only_allocates_witness :
  exists r w',
    ExecuteNucleiWithOpts (P := demo_packages ["cve.yaml"] [])
      demo_facade ["example.com"] [WithRateLimit 5 0] demo_world = Ok r w' /\
    extends demo_world w'.
Proof.
  apply (ExecuteNucleiWithOpts_only_allocates
           (P := demo_packages ["cve.yaml"] []) demo_facade ["example.com"]
           [WithRateLimit 5 0] demo_world 1%positive demo_base 1%positive
           demo_options).
  repeat split; reflexivity.
Defined.

Lemma nil_pointer_panics_witness :
  ExecuteNucleiWithOpts (P := demo_packages ["cve.yaml"] [])
    {| eng := None |} ["example.com"] [] demo_world = Panic nil_deref /\
  createEphemeralObjects (WorkflowLoader := unit) (Some 1%positive) None
    demo_world = Panic nil_deref.
Proof.
  destruct (nil_pointer_panics (P := demo_packages ["cve.yaml"] [])
              {| eng := None |} demo_world 1%positive demo_base)
    as (Hnil & _ & _ & Hopts).
  split.
  - exact (Hnil eq_refl ["example.com"] []).
  - exact (Hopts eq_refl).
Defined.

(** A refusing option function: the error returned is its own. *)
Lemma ExecuteNucleiWithOpts_errors_witness :
  exists f o,
    fold_options [NotSupported] (zero_fields threadSafe) demo_options
    = (f, o, Some ErrOptionsNotSupported).
Proof.
  eassert (Hrun : ExecuteNucleiWithOpts (P := demo_packages ["cve.yaml"] [])
                    demo_facade ["example.com"] [NotSupported] demo_world
                  = Ok (Some ErrOptionsNotSupported) _)
    by (vm_compute; reflexivity).
  assert (Hserves : serves demo_facade demo_world 1%positive demo_base
                      1%positive demo_options)
    by (repeat split; reflexivity).
  destruct (ExecuteNucleiWithOpts_errors _ _ _ _ _ _ _ _ _ _ Hserves Hrun)
    as [H|[[c H]|[[c H]|[H|[H _]]]]]; [exact H|discriminate..].
Defined.

Lemma ExecuteNucleiWithOpts_nil_iff_scanned_witness :
  exists r w' evs,
    ExecuteNucleiWithOpts (P := demo_packages ["cve.yaml"] [])
      demo_facade ["example.com"] [] demo_world = Ok r w' /\
    trace w' = trace demo_world ++ evs /\
    (r = None <-> exists q ts ip nc, EvExecuteScan q ts ip nc ∈ evs).
Proof.
  apply (ExecuteNucleiWithOpts_nil_iff_scanned
           (P := demo_packages ["cve.yaml"] []) demo_facade ["example.com"] []
           demo_world 1%positive demo_base 1%positive demo_options).
  repeat split; reflexivity.
Defined.

(** * The scan handlers: properties *)

Module handlers_facts.

Import handlers.

Section Facts.

Context {DB ScanService ProgressReport : Type}.
Context {Sv : Services DB ScanService ProgressReport}.

Implicit Types (s : Server DB ScanService ProgressReport) (ctx : echo_Context).

(** ** The copy loops *)

(** The loop writes the images of the source, in order, from index [i] on,
    and leaves the rest of the destination; it stays in range when the
    destination is long enough. *)
Lemma fill_spec {A B} (f : A -> B) (src : list A) : forall (i : nat) (dst : list B),
  (i + length src <= length dst)%nat ->
  fill f src i dst
  = Some (take i dst ++ map f src ++ drop (i + length src) dst).
Proof.
  induction src as [|value more IH]; intros i dst Hlen; cbn in *.
  - by rewrite Nat.add_0_r, take_drop.
  - unfold assign. destruct (decide (i < length dst)%nat) as [Hi|Hi]; [|lia].
    rewrite IH by (rewrite length_insert; lia).
    f_equal.
    rewrite (take_S_r _ _ (f value)) by (by apply list_lookup_insert_eq).
    rewrite take_insert_ge by lia.
    rewrite drop_insert_lt by lia.
    replace (i + S (length more))%nat with (S i + length more)%nat by lia.
    by rewrite <- app_assoc.
Qed.

Lemma fill_map {A B} (f : A -> B) (src : list A) (z : B) :
  fill f src 0 (replicate (length src) z) = Some (map f src).
Proof.
  rewrite fill_spec by (rewrite length_replicate; lia).
  rewrite take_0, drop_ge by (rewrite length_replicate; cbn; lia).
  cbn. by rewrite app_nil_r.
Qed.

(** The loop returns exactly when the destination has room for the source
    from [i] on. *)
Lemma fill_in_range {A B} (f : A -> B) (src : list A) (i : nat) (dst : list B) :
  is_Some (fill f src i dst) <-> (src = [] \/ i + length src <= length dst)%nat.
Proof.
  split.
  - revert i dst. induction src as [|value more IH]; intros i dst; [by left|].
    cbn. unfold assign.
    destruct (decide (i < length dst)%nat) as [Hi|Hi]; [|by intros [? ?]].
    intros Hsome. right.
    destruct (IH _ _ Hsome) as [->|Hlen]; cbn; [lia|].
    rewrite length_insert in Hlen. lia.
  - intros [->|Hlen]; [by eexists|]. rewrite fill_spec by done. by eexists.
Qed.

(** ** AddScan *)

(** [AddScan] on a body that decodes, exactly. *)
Lemma AddScan_run s ctx req id err db' :
  Decode (Body ctx) = (req, None) ->
  Queries_AddScan
    (AddScan_params req (AddScanRequest.Targets req)
       (CalculateTargetCount (AddScanRequest.Targets req) (db s)))
    (db s) = (id, err, db') ->
  AddScan s ctx =
  Returned err
    {| db := db';
       scans := if AddScanRequest.RunNow req
                then Queue (AddScan_request req id) (scans s)
                else scans s;
       calls := calls s ++
                CallAddScan
                  (AddScan_params req (AddScanRequest.Targets req)
                     (CalculateTargetCount (AddScanRequest.Targets req) (db s)))
                :: (if AddScanRequest.RunNow req
                    then [CallQueue (AddScan_request req id)]
                    else []) |}.
Proof.
  intros Hdec Hadd. unfold AddScan. rewrite Hdec, fill_map, map_id, Hadd.
  destruct (AddScanRequest.RunNow req); cbn; [|done].
  by rewrite <- app_assoc.
Qed.

(** X10.  When the body decodes, [AddScan] makes one insertion and does
    not panic: the row holds the request's targets and templates as given,
    the status "scheduled", the host count of the targets, and every nullable
    column is written as non-NULL, empty strings included; the handler
    returns what the insertion returned. *)
Theorem AddScan_inserts s ctx req :
  Decode (Body ctx) = (req, None) ->
  exists arg id err db' s',
    Queries_AddScan arg (db s) = (id, err, db') /\
    AddScan s ctx = Returned err s' /\
    db s' = db' /\
    (exists rest, calls s' = calls s ++ CallAddScan arg :: rest /\
                  forall arg', CallAddScan arg' ∉ rest) /\
    AddScanParams.Targets arg = AddScanRequest.Targets req /\
    AddScanParams.Templates arg = AddScanRequest.Templates req /\
    AddScanParams.Status arg
    = {| NullString.String := "scheduled"; NullString.Valid := true |} /\
    AddScanParams.Hosts arg
    = {| NullInt64.Int64 :=
           CalculateTargetCount (AddScanRequest.Targets req) (db s);
         NullInt64.Valid := true |} /\
    AddScanParams.Name arg
    = {| NullString.String := AddScanRequest.Name req;
         NullString.Valid := true |} /\
    NullString.Valid (AddScanParams.Config arg) = true /\
    NullString.Valid (AddScanParams.Reporting arg) = true /\
    NullString.Valid (AddScanParams.Scansource arg) = true /\
    NullString.Valid (AddScanParams.Scheduleoccurence arg) = true /\
    NullString.Valid (AddScanParams.Scheduletime arg) = true /\
    NullBool.Valid (AddScanParams.Runnow arg) = true.
Proof.
  intros Hdec.
  destruct (Queries_AddScan
              (AddScan_params req (AddScanRequest.Targets req)
                 (CalculateTargetCount (AddScanRequest.Targets req) (db s)))
              (db s)) as [[id err] db'] eqn:Hadd.
  eexists _, id, err, db', _.
  split; [exact Hadd|]. split; [by apply AddScan_run|].
  split; [done|]. split; [|done].
  eexists. split; [reflexivity|].
  intros arg'. destruct (AddScanRequest.RunNow req).
  - intros Hin. apply list_elem_of_singleton in Hin. discriminate.
  - apply not_elem_of_nil.
Qed.

(** X11.  [AddScan] queues a scan exactly when the body decodes and the
    request says [RunNow]: on a decode error the server is left as it was; a
    request with [RunNow] is queued once, after the insertion, with the id
    the insertion returned, and that also when the insertion returned an
    error; without [RunNow] nothing is queued. *)
Theorem AddScan_queues s ctx req :
  (forall err, Decode (Body ctx) = (req, Some err) ->
               AddScan s ctx = Returned (Some err) s) /\
  (Decode (Body ctx) = (req, None) ->
   exists arg id err db' s',
     Queries_AddScan arg (db s) = (id, err, db') /\
     AddScan s ctx = Returned err s' /\
     (AddScanRequest.RunNow req = true ->
      calls s' = calls s ++ [CallAddScan arg; CallQueue (AddScan_request req id)] /\
      scans s' = Queue (AddScan_request req id) (scans s)) /\
     (AddScanRequest.RunNow req = false ->
      calls s' = calls s ++ [CallAddScan arg] /\ scans s' = scans s)).
Proof.
  split.
  - intros err Hdec. unfold AddScan. by rewrite Hdec.
  - intros Hdec.
    destruct (Queries_AddScan
                (AddScan_params req (AddScanRequest.Targets req)
                   (CalculateTargetCount (AddScanRequest.Targets req) (db s)))
                (db s)) as [[id err] db'] eqn:Hadd.
    eexists _, id, err, db', _.
    split; [exact Hadd|]. split; [by apply AddScan_run|]. cbn.
    split; intros ->; done.
Qed.

(** ** GetScans and GetScan *)

(** X12.  [GetScans] asks the database by search key when the "search"
    parameter is not empty (the key written as non-NULL), and for all scans
    otherwise; when the query succeeds the handler does not panic and writes,
    with status 200, one entry per row, in the order of the rows. *)
Theorem GetScans_lists s ctx response :
  (if decide (QueryParam ctx "search" <> "")
   then Queries_GetScansBySearchKey
          {| NullString.String := QueryParam ctx "search";
             NullString.Valid := true |} (db s)
   else Queries_GetScans (db s)) = (response, None) ->
  let body := ScansPayload (map GetScans_item response) in
  let query :=
    if decide (QueryParam ctx "search" <> "")
    then CallGetScansBySearchKey
           {| NullString.String := QueryParam ctx "search";
              NullString.Valid := true |}
    else CallGetScans in
  GetScans s ctx =
  Returned (JSON 200 body)
    {| db := db s; scans := scans s;
       calls := calls s ++ [query; CallJSON 200 body] |}.
Proof.
  intros Hq body query. unfold GetScans, query.
  destruct (decide (QueryParam ctx "search" <> "")); rewrite Hq, fill_map;
    unfold called; cbn; by rewrite <- app_assoc.
Qed.

(** X13.  A handler that returns an error of its own writes no response:
    [GetScans] on a failed query and [GetScan] on a failed query make that
    one query and nothing else; [GetScan] on an id that does not parse does
    not reach the database either. *)
Theorem errors_write_nothing s ctx :
  (forall response err,
     (if decide (QueryParam ctx "search" <> "")
      then Queries_GetScansBySearchKey
             {| NullString.String := QueryParam ctx "search";
                NullString.Valid := true |} (db s)
      else Queries_GetScans (db s)) = (response, Some err) ->
     GetScans s ctx =
     Returned (Some err)
       (called s (if decide (QueryParam ctx "search" <> "")
                  then CallGetScansBySearchKey
                         {| NullString.String := QueryParam ctx "search";
                            NullString.Valid := true |}
                  else CallGetScans))) /\
  (forall id err,
     ParseInt (Param ctx "id") = (id, Some err) ->
     GetScan s ctx = Returned (Some err) s) /\
  (forall id scan err,
     ParseInt (Param ctx "id") = (id, None) ->
     Queries_GetScan id (db s) = (scan, Some err) ->
     GetScan s ctx = Returned (Some err) (called s (CallGetScan id))).
Proof.
  split; [|split].
  - intros response err Hq. unfold GetScans.
    destruct (decide (QueryParam ctx "search" <> "")); by rewrite Hq.
  - intros id err Hp. unfold GetScan. by rewrite Hp.
  - intros id scan err Hp Hq. unfold GetScan. by rewrite Hp, Hq.
Qed.

(** X14.  [GetScan] writes, with status 200, for the row it has fetched the
    very entry [GetScans] lists for that row; and an entry does not tell a
    NULL column from an empty one: the validity flags of the row are not
    read. *)
Theorem GetScan_entry s ctx id scan :
  ParseInt (Param ctx "id") = (id, None) ->
  Queries_GetScan id (db s) = (scan, None) ->
  GetScan s ctx =
  Returned (JSON 200 (ScanPayload (GetScans_item scan)))
    {| db := db s; scans := scans s;
       calls := calls s ++ [CallGetScan id;
                            CallJSON 200 (ScanPayload (GetScans_item scan))] |} /\
  forall v, GetScans_item (with_valid v scan) = GetScans_item scan.
Proof.
  intros Hp Hq. split; [|done].
  unfold GetScan. rewrite Hp, Hq. unfold called. cbn.
  by rewrite <- app_assoc.
Qed.

End Facts.


(** A request with [RunNow] whose insertion fails: the row is sent with
    the two targets, and the scan is queued all the same. *)
Lemma AddScan_inserts_witness :
  exists arg err s',
    AddScan (Sv := demo_services (demo_request true, None)
                     (0%Z, Some (errors_New "insert failed")) ([], None)
                     (demo_row 7 "nightly", None))
      demo_server (demo_context "{}" "" "") = Returned err s' /\
    db s' = [arg] /\
    AddScanParams.Targets arg = ["a.example"; "b.example"] /\
    AddScanParams.Hosts arg
    = {| NullInt64.Int64 := 2; NullInt64.Valid := true |}.
Proof.
  destruct (AddScan_inserts
              (Sv := demo_services (demo_request true, None)
                       (0%Z, Some (errors_New "insert failed")) ([], None)
                       (demo_row 7 "nightly", None))
              demo_server (demo_context "{}" "" "") (demo_request true) eq_refl)
    as (arg & id & err & db' & s' & Hadd & Hrun & Hdb & _ & Htargets & _ & _
        & Hhosts & _).
  exists arg, err, s'. split; [exact Hrun|].
  injection Hadd as _ _ <-. split; [exact Hdb|].
  split; [exact Htargets|exact Hhosts].
Defined.

Lemma AddScan_queues_witness :
  exists arg s',
    AddScan (Sv := demo_services (demo_request true, None)
                     (0%Z, Some (errors_New "insert failed")) ([], None)
                     (demo_row 7 "nightly", None))
      demo_server (demo_context "{}" "" "")
    = Returned (Some (errors_New "insert failed")) s' /\
    calls s' = [CallAddScan arg;
                CallQueue (AddScan_request (demo_request true) 0)].
Proof.
  destruct (AddScan_queues
              (Sv := demo_services (demo_request true, None)
                       (0%Z, Some (errors_New "insert failed")) ([], None)
                       (demo_row 7 "nightly", None))
              demo_server (demo_context "{}" "" "") (demo_request true))
    as [_ Hok].
  destruct (Hok eq_refl) as (arg & id & err & db' & s' & Hadd & Hrun & Hnow & _).
  injection Hadd as <- <- _.
  exists arg, s'. split; [exact Hrun|].
  exact (proj1 (Hnow eq_refl)).
Defined.

Lemma GetScans_lists_witness :
  exists s',
    GetScans (Sv := demo_services (demo_request true, None) (1%Z, None)
                      ([demo_row 1 "first"; demo_row 2 "second"], None)
                      (demo_row 7 "nightly", None))
      demo_server (demo_context "" "fir" "")
    = Returned None s' /\
    calls s'
    = [CallGetScansBySearchKey
         {| NullString.String := "fir"; NullString.Valid := true |};
       CallJSON 200 (ScansPayload [GetScans_item (demo_row 1 "first");
                                   GetScans_item (demo_row 2 "second")])].
Proof.
  eexists. split.
  - apply (GetScans_lists
             (Sv := demo_services (demo_request true, None) (1%Z, None)
                      ([demo_row 1 "first"; demo_row 2 "second"], None)
                      (demo_row 7 "nightly", None))
             demo_server (demo_context "" "fir" "")
             [demo_row 1 "first"; demo_row 2 "second"]).
    reflexivity.
  - reflexivity.
Defined.

Lemma errors_write_nothing_witness :
  GetScan (Sv := demo_services (demo_request true, None) (1%Z, None) ([], None)
                   (demo_row 7 "nightly", None))
    demo_server (demo_context "" "" "seven")
  = Returned (Some (errors_New "invalid syntax")) demo_server /\
  GetScan (Sv := demo_services (demo_request true, None) (1%Z, None) ([], None)
                   (demo_row 7 "nightly", Some (errors_New "no rows")))
    demo_server (demo_context "" "" "7")
  = Returned (Some (errors_New "no rows")) (called demo_server (CallGetScan 7)).
Proof.
  split.
  - destruct (errors_write_nothing
                (Sv := demo_services (demo_request true, None) (1%Z, None)
                         ([], None) (demo_row 7 "nightly", None))
                demo_server (demo_context "" "" "seven")) as (_ & Hparse & _).
    exact (Hparse 0%Z (errors_New "invalid syntax") eq_refl).
  - destruct (errors_write_nothing
                (Sv := demo_services (demo_request true, None) (1%Z, None)
                         ([], None)
                         (demo_row 7 "nightly", Some (errors_New "no rows")))
                demo_server (demo_context "" "" "7")) as (_ & _ & Hquery).
    exact (Hquery 7%Z (demo_row 7 "nightly") (errors_New "no rows")
             eq_refl eq_refl).
Defined.

Lemma GetScan_entry_witness :
  exists s',
    GetScan (Sv := demo_services (demo_request true, None) (1%Z, None) ([], None)
                     (demo_row 7 "nightly", None))
      demo_server (demo_context "" "" "7")
    = Returned None s' /\
    calls s' = [CallGetScan 7;
                CallJSON 200 (ScanPayload (GetScans_item (demo_row 7 "nightly")))].
Proof.
  destruct (GetScan_entry
              (Sv := demo_services (demo_request true, None) (1%Z, None)
                       ([], None) (demo_row 7 "nightly", None))
              demo_server (demo_context "" "" "7") 7%Z (demo_row 7 "nightly")
              eq_refl eq_refl) as [Hrun _].
  eexists. split; [exact Hrun|reflexivity].
Defined.

End handlers_facts.

(** * The facade, further: an example *)

Lemma ExecuteNucleiWithOpts_two_executors_witness :
  exists w' l1 lc,
    ExecuteNucleiWithOpts (P := demo_packages ["cve.yaml"] [])
      demo_facade ["example.com"] [] demo_world = Ok None w' /\
    l1 <> lc /\
    dom (cores w') = {[lc]} ∪ ({[l1]} ∪ dom (cores demo_world)).
Proof.
  assert (Hserves : serves demo_facade demo_world 1%positive demo_base
                      1%positive demo_options)
    by (repeat split; reflexivity).
  eassert (Hrun : ExecuteNucleiWithOpts (P := demo_packages ["cve.yaml"] [])
                    demo_facade ["example.com"] [] demo_world = Ok None _)
    by (vm_compute; reflexivity).
  destruct (ExecuteNucleiWithOpts_two_executors _ _ _ _ _ _ _ _ _ Hserves Hrun)
    as (l1 & lc & po & eo1 & wl & evs & Hne & _ & _ & Hdom & _).
  eexists _, l1, lc. split; [exact Hrun|]. split; [exact Hne|exact Hdom].
Defined.
